(** * aippt_t_downloader: the acquisition orchestrator, embedded and verified

    Source: [src/services/aipptDownloader.js].

    JavaScript strings are sequences of UTF-16 code units; they are embedded
    as [list N].  The built-ins the module calls ([RegExp.prototype.exec],
    [String.prototype.trim], [decodeURIComponent], [URL], [path.join],
    [path.basename], [fs.rmSync]) are embedded after ECMA-262 and the Node
    documentation, restricted to what the call sites use. *)

From Stdlib Require Import List NArith ZArith QArith Bool String Ascii Lia
  PeanoNat.
Close Scope Q_scope.
Import ListNotations.


(** ** JavaScript strings *)

Module JS.

Local Open Scope N_scope.

Definition jsstring := list N.

(** An ASCII literal as a JavaScript string. *)
Definition js (s : string) : jsstring :=
  map N_of_ascii (list_ascii_of_string s).

Definition c_dquote : N := 34.
Definition c_percent : N := 37.
Definition c_hash : N := 35.
Definition c_dot : N := 46.
Definition c_slash : N := 47.
Definition c_semi : N := 59.
Definition c_quest : N := 63.

Fixpoint str_eqb (a b : jsstring) : bool :=
  match a, b with
  | [], [] => true
  | x :: a', y :: b' => (x =? y) && str_eqb a' b'
  | _, _ => false
  end.

(** Truthiness of a string value: only the empty string is falsy. *)
Definition truthy (s : jsstring) : bool :=
  match s with [] => false | _ => true end.

(** [a || b] on strings. *)
Definition or_str (a b : jsstring) : jsstring :=
  if truthy a then a else b.

(** [a || b] where either side may be [undefined]. *)
Definition or_undef (a b : option jsstring) : option jsstring :=
  match a with
  | Some s => if truthy s then a else b
  | None => b
  end.

(** [s.startsWith(p)], returning what follows the prefix. *)
Fixpoint strip_prefix (p s : jsstring) : option jsstring :=
  match p, s with
  | [], _ => Some s
  | x :: p', y :: s' => if x =? y then strip_prefix p' s' else None
  | _ :: _, [] => None
  end.

(** [text.includes(needle)]. *)
Fixpoint includes (needle text : jsstring) : bool :=
  match strip_prefix needle text with
  | Some _ => true
  | None => match text with
            | [] => false
            | _ :: text' => includes needle text'
            end
  end.

(** Longest prefix whose code units satisfy [p], and the rest. *)
Fixpoint span (p : N -> bool) (s : jsstring) : jsstring * jsstring :=
  match s with
  | [] => ([], [])
  | c :: s' =>
      if p c then let (a, b) := span p s' in (c :: a, b) else ([], s)
  end.

(** Canonicalisation of the [i] flag without the [u] flag, on the ASCII
    range: a code unit above 127 never canonicalises into ASCII, so against an
    ASCII pattern character only the two ASCII cases match. *)
Definition upper (c : N) : N :=
  if (97 <=? c) && (c <=? 122) then c - 32 else c.

Definition ci_eqb (a b : N) : bool := upper a =? upper b.

(** An ASCII literal matched case-insensitively at the head of [s]. *)
Fixpoint strip_prefix_ci (p s : jsstring) : option jsstring :=
  match p, s with
  | [], _ => Some s
  | x :: p', y :: s' => if ci_eqb x y then strip_prefix_ci p' s' else None
  | _ :: _, [] => None
  end.

(** White space and line terminators removed by [String.prototype.trim]. *)
Definition is_space (c : N) : bool :=
  (c =? 9) || (c =? 10) || (c =? 11) || (c =? 12) || (c =? 13) || (c =? 32)
  || (c =? 160) || (c =? 5760) || ((8192 <=? c) && (c <=? 8202))
  || (c =? 8232) || (c =? 8233) || (c =? 8239) || (c =? 8287)
  || (c =? 12288) || (c =? 65279).

Fixpoint trim_start (s : jsstring) : jsstring :=
  match s with
  | c :: s' => if is_space c then trim_start s' else s
  | [] => []
  end.

Definition trim (s : jsstring) : jsstring :=
  rev (trim_start (rev (trim_start s))).

(** *** decodeURIComponent (ECMA-262, Decode with an empty reserved set) *)

Definition hexval (c : N) : option N :=
  if (48 <=? c) && (c <=? 57) then Some (c - 48)
  else if (65 <=? c) && (c <=? 70) then Some (c - 55)
  else if (97 <=? c) && (c <=? 102) then Some (c - 87)
  else None.

Inductive token :=
| Lit (c : N)      (* a code unit copied as it stands *)
| Oct (b : N).     (* the octet of one percent escape *)

(** First pass: every [%] must be followed by two hexadecimal digits. *)
Fixpoint escapes (s : jsstring) : option (list token) :=
  match s with
  | [] => Some []
  | c :: rest =>
      if c =? c_percent then
        match rest with
        | h1 :: h2 :: rest' =>
            match hexval h1, hexval h2, escapes rest' with
            | Some a, Some b, Some ts => Some (Oct (16 * a + b) :: ts)
            | _, _, _ => None
            end
        | _ => None
        end
      else option_map (cons (Lit c)) (escapes rest)
  end.

Definition in_range (lo hi b : N) : bool := (lo <=? b) && (b <=? hi).

(** UTF-16 encoding of a code point. *)
Definition utf16 (v : N) : jsstring :=
  if v <? 65536 then [v]
  else [55296 + (v - 65536) / 1024; 56320 + (v - 65536) mod 1024].

(** Second pass: an octet below 128 is its own character; a larger one must
    start a well-formed UTF-8 sequence made of consecutive escapes (no
    overlong form, no surrogate, nothing above U+10FFFF). *)
Fixpoint octets (ts : list token) : option jsstring :=
  match ts with
  | [] => Some []
  | Lit c :: r => option_map (cons c) (octets r)
  | Oct b :: r =>
      if b <? 128 then option_map (cons b) (octets r)
      else if in_range 194 223 b then
        match r with
        | Oct b1 :: r1 =>
            if in_range 128 191 b1
            then option_map (app (utf16 ((b - 192) * 64 + (b1 - 128))))
                            (octets r1)
            else None
        | _ => None
        end
      else if in_range 224 239 b then
        match r with
        | Oct b1 :: Oct b2 :: r2 =>
            if in_range (if b =? 224 then 160 else 128)
                        (if b =? 237 then 159 else 191) b1
               && in_range 128 191 b2
            then option_map
                   (app (utf16 ((b - 224) * 4096 + (b1 - 128) * 64
                                + (b2 - 128))))
                   (octets r2)
            else None
        | _ => None
        end
      else if in_range 240 244 b then
        match r with
        | Oct b1 :: Oct b2 :: Oct b3 :: r3 =>
            if in_range (if b =? 240 then 144 else 128)
                        (if b =? 244 then 143 else 191) b1
               && in_range 128 191 b2 && in_range 128 191 b3
            then option_map
                   (app (utf16 ((b - 240) * 262144 + (b1 - 128) * 4096
                                + (b2 - 128) * 64 + (b3 - 128))))
                   (octets r3)
            else None
        | _ => None
        end
      else None
  end.

(** [None] stands for the [URIError] the built-in throws. *)
Definition decodeURIComponent (s : jsstring) : option jsstring :=
  match escapes s with
  | Some ts => octets ts
  | None => None
  end.

End JS.

Import JS.

(** ** The regular expressions of the module

    Each literal of the source is embedded as the matcher it denotes under
    the backtracking semantics of [RegExp.prototype.exec]: the leftmost start
    position wins and, at one position, the alternatives are tried in the
    order they are written. *)

Module Regex.

Local Open Scope N_scope.

(** [/^https?:\/\//.test(s)] *)
Definition re_template_url (s : jsstring) : bool :=
  match strip_prefix (js "http://") s, strip_prefix (js "https://") s with
  | None, None => false
  | _, _ => true
  end.

(** [/attachment/i.test(s)] *)
Fixpoint re_attachment (s : jsstring) : bool :=
  match strip_prefix_ci (js "attachment") s with
  | Some _ => true
  | None => match s with
            | [] => false
            | _ :: s' => re_attachment s'
            end
  end.

(** Code units that [.] does not match. *)
Definition is_line_terminator (c : N) : bool :=
  (c =? 10) || (c =? 13) || (c =? 8232) || (c =? 8233).

(** The optional query group followed by the end of input, at the head of
    [s]: nothing, or a question mark and then no line terminator. *)
Definition query_then_end (s : jsstring) : bool :=
  match s with
  | [] => true
  | c :: q => (c =? c_quest) && forallb (fun x => negb (is_line_terminator x)) q
  end.

Definition file_extensions : list jsstring :=
  [js "ppt"; js "pptx"; js "zip"; js "rar"; js "7z"; js "pdf"].

(** A dot, one of the extensions, then [query_then_end], at the head of [s]. *)
Definition file_url_at (s : jsstring) : bool :=
  match s with
  | c :: r =>
      (c =? c_dot)
      && existsb (fun e => match strip_prefix_ci e r with
                           | Some t => query_then_end t
                           | None => false
                           end) file_extensions
  | [] => false
  end.

(** The file-like URL test of the response listener: the pattern
    dot, (ppt|pptx|zip|rar|7z|pdf), optional query, end of input, with the
    [i] flag, searched at every position. *)
Fixpoint re_file_url (s : jsstring) : bool :=
  file_url_at s || match s with
                   | [] => false
                   | _ :: s' => re_file_url s'
                   end.

(** The result of a successful [exec] of the file-name pattern: its two
    capture groups, [None] for a group that did not take part. *)
Record filename_match := FilenameMatch {
  group1 : option jsstring;
  group2 : option jsstring
}.

(** One or more code units satisfying [p], taken greedily. *)
Definition plus (p : N -> bool) (s : jsstring) : option (jsstring * jsstring) :=
  match span p s with
  | ([], _) => None
  | (v, rest) => Some (v, rest)
  end.

(** First alternative, [filename\*=UTF-8''([^;]+)], at the head of [s]. *)
Definition filename_star_at (s : jsstring) : option jsstring :=
  match strip_prefix_ci (js "filename*=UTF-8''") s with
  | Some r => option_map fst (plus (fun c => negb (c =? c_semi)) r)
  | None => None
  end.

(** Second alternative, [filename=QUOTE?([^QUOTE;]+)QUOTE?] where QUOTE is
    the double quote, at the head of [s].  When the optional opening quote
    is taken and the group then fails, the retry without the quote faces
    that same quote, which the class excludes: one attempt decides. *)
Definition filename_plain_at (s : jsstring) : option jsstring :=
  match strip_prefix_ci (js "filename=") s with
  | Some r =>
      let r' := match r with
                | c :: t => if c =? c_dquote then t else r
                | [] => r
                end in
      option_map fst
        (plus (fun c => negb (c =? c_dquote) && negb (c =? c_semi)) r')
  | None => None
  end.

Definition filename_at (s : jsstring) : option filename_match :=
  match filename_star_at s with
  | Some v => Some (FilenameMatch (Some v) None)
  | None =>
      match filename_plain_at s with
      | Some v => Some (FilenameMatch None (Some v))
      | None => None
      end
  end.

(** [/filename\*=UTF-8''([^;]+)|filename=QUOTE?([^QUOTE;]+)QUOTE?/i.exec(s)] *)
Fixpoint re_filename_exec (s : jsstring) : option filename_match :=
  match filename_at s with
  | Some m => Some m
  | None => match s with
            | [] => None
            | _ :: s' => re_filename_exec s'
            end
  end.

End Regex.

(** ** [URL] and [path] *)

Module Url.

Local Open Scope N_scope.

(** [new URL(s).pathname] for the serialised absolute http(s) URL a network
    response reports: what follows the authority up to the first [?] or
    [#], and [/] when that is empty.  Re-parsing a serialised URL leaves its
    components as they are.  [None] stands for the [TypeError] of the
    constructor; strings of another shape are outside this embedding and are
    mapped to [None] as well. *)
Definition pathname (s : jsstring) : option jsstring :=
  let after_scheme :=
    match strip_prefix (js "http://") s with
    | Some r => Some r
    | None => strip_prefix (js "https://") s
    end in
  match after_scheme with
  | Some r =>
      let stop c := (c =? c_slash) || (c =? c_quest) || (c =? c_hash) in
      match span (fun c => negb (stop c)) r with
      | ([], _) => None
      | (_, rest) =>
          match fst (span (fun c => negb ((c =? c_quest) || (c =? c_hash)))
                          rest) with
          | [] => Some [c_slash]
          | p => Some p
          end
      end
  | None => None
  end.

End Url.

Module Path.

Local Open Scope N_scope.

(** [s.split('/')] *)
Fixpoint split_slash (s : jsstring) : list jsstring :=
  match s with
  | [] => [[]]
  | c :: s' =>
      if c =? c_slash then [] :: split_slash s'
      else match split_slash s' with
           | seg :: segs => (c :: seg) :: segs
           | [] => [[c]]
           end
  end.

(** [arr.pop()] on the result of a split: its last element. *)
Definition pop (segs : list jsstring) : jsstring := last segs [].

Definition is_dot (seg : jsstring) : bool := str_eqb seg [c_dot].
Definition is_dotdot (seg : jsstring) : bool := str_eqb seg [c_dot; c_dot].

(** [normalizeString] of Node's [path] module on the segments of a path;
    [stack] holds the segments kept so far, last one first. *)
Fixpoint normalize_segments (allow_above_root : bool)
         (stack : list jsstring) (segs : list jsstring) : list jsstring :=
  match segs with
  | [] => stack
  | seg :: segs' =>
      if truthy seg && negb (is_dot seg) then
        if is_dotdot seg then
          match stack with
          | top :: below =>
              if is_dotdot top
              then normalize_segments allow_above_root
                     (if allow_above_root then seg :: stack else stack) segs'
              else normalize_segments allow_above_root below segs'
          | [] =>
              normalize_segments allow_above_root
                (if allow_above_root then [seg] else []) segs'
          end
        else normalize_segments allow_above_root (seg :: stack) segs'
      else normalize_segments allow_above_root stack segs'
  end.

(** [segs.join('/')] *)
Fixpoint join_slash (segs : list jsstring) : jsstring :=
  match segs with
  | [] => []
  | [seg] => seg
  | seg :: segs' => seg ++ c_slash :: join_slash segs'
  end.

Definition is_absolute (p : jsstring) : bool :=
  match p with c :: _ => c =? c_slash | [] => false end.

Definition has_trailing_slash (p : jsstring) : bool :=
  match rev p with c :: _ => c =? c_slash | [] => false end.

(** [path.posix.normalize] *)
Definition normalize (p : jsstring) : jsstring :=
  match p with
  | [] => [c_dot]
  | _ =>
      let body :=
        join_slash (rev (normalize_segments (negb (is_absolute p)) []
                                            (split_slash p))) in
      match body with
      | [] =>
          if is_absolute p then [c_slash]
          else if has_trailing_slash p then [c_dot; c_slash] else [c_dot]
      | _ =>
          (if is_absolute p then [c_slash] else [])
            ++ body ++ (if has_trailing_slash p then [c_slash] else [])
      end
  end.

(** [path.posix.join(a, b)] *)
Definition join (a b : jsstring) : jsstring :=
  match a, b with
  | [], [] => [c_dot]
  | [], _ => normalize b
  | _, [] => normalize a
  | _, _ => normalize (a ++ c_slash :: b)
  end.

(** A single path segment that [normalize] keeps as it is. *)
Definition plain (name : jsstring) : bool :=
  truthy name && forallb (fun c => negb (c =? c_slash)) name
  && negb (is_dot name) && negb (is_dotdot name).

(** [path.posix.basename(p)]: trailing slashes are ignored, then what follows
    the last remaining slash is returned. *)
Definition basename (p : jsstring) : jsstring :=
  let not_slash c := negb (c =? c_slash) in
  rev (fst (span not_slash (snd (span (fun c => c =? c_slash) (rev p))))).

End Path.

(** ** The world the module runs in *)

Module World.

(** What a rejected promise or a [throw] carries. *)
Inductive error :=
| Error (message : string)       (* [throw new Error(message)] of the module *)
| Rejection (origin : string).   (* raised by Playwright, Node or a built-in *)

Inductive result (A : Type) :=
| Ok (a : A)
| Throw (e : error).
Arguments Ok {A} a.
Arguments Throw {A} e.

Definition browser := nat.
Definition context := nat.

(** The locators and selectors the module builds, one constructor per
    selector text of the source. *)
Inductive selector :=
| SelTrackedLabelled   (* button[data-track-event=dl_template_down_id]:has-text(LABEL) *)
| SelTracked           (* button[data-track-event=dl_template_down_id] *)
| SelButtonLabelled    (* button:has-text(LABEL) *)
| SelAnchorLabelled    (* a:has-text(LABEL) *)
| SelGradient          (* button.bg-gradient-primary-lr *)
| SelMl3               (* button.ml-3 *)
| SelLoginRegister     (* button:has-text(login | register), exact label *)
| SelLoginAndRegister  (* button:has-text(login) filtered by hasText register *)
| SelSwitchPassword    (* div.dialog-login-change-btn .text:has-text(switch) *)
| SelAccount           (* #custom-validation_account *)
| SelPassword          (* #custom-validation_password *)
| SelSubmitSpan        (* button.ant-btn.ant-btn-primary[type=submit] span:has-text(log in) *)
| SelSubmit.           (* button.ant-btn.ant-btn-primary[type=submit] *)

(** A Playwright [Download]. *)
Record download := Download {
  suggestedFilename : jsstring;
  payload : list N;
  saveAs : option error            (* [None]: the file is saved *)
}.

(** A Playwright [Response]. *)
Record response := Response {
  url : jsstring;
  headers : list (jsstring * jsstring);
  body : result (list N)
}.

(** A value told apart by [typeof download.suggestedFilename === 'function']. *)
Inductive signal :=
| IsDownload (d : download)
| IsResponse (r : response).

(** The page opened by the click, as the engine observes it. *)
Record popup := Popup {
  popup_download : option download;        (* [popup.waitForEvent('download')] *)
  popup_count : result nat;                (* [popupDl.count()] *)
  popup_click_download : option download   (* the event awaited around the click *)
}.

(** What the page answers during one phase of the request.  A call the
    source guards with [.catch] or [try] is given by its outcome only where
    the outcome is used. *)
Record page := Page {
  count : selector -> result nat;
  click : selector -> bool -> option error;   (* the flag is [force] *)
  fill : selector -> option error;
  querySelector : selector -> option jsstring; (* [textContent || ''] of the element *)
  evaluate : option error;                     (* [page.evaluate] itself failing *)
  waitForTimeout : option error;
  download_event : option download;            (* [page.waitForEvent('download')] *)
  popup_event : option popup;                  (* [context.waitForEvent('page')] *)
  responses : list response                    (* in order of arrival *)
}.

Inductive context_outcome :=
| ContextCreated
| ContextFails (e : error)
| BrowserGone (e : error).       (* the browser has disconnected *)

(** The persisted session snapshot [data/aippt_storage.json]. *)
Inductive snapshot :=
| NoFile
| Saved (owner : context)
| Corrupt.

(** Everything outside the module: process environment, Playwright, the file
    system's own failures. *)
Record env := Env {
  AIPPT_USERNAME : option jsstring;
  AIPPT_PASSWORD : option jsstring;
  PLAYWRIGHT_HEADLESS : option jsstring;
  mkdtempSync : result jsstring;
  launch : nat -> option error;               (* the n-th [chromium.launch] *)
  newContext : nat -> context_outcome;        (* the n-th [browser.newContext] *)
  newPage : option error;
  goto : option error;
  settle_wait : option error;                 (* [page.waitForTimeout(200)] *)
  login_page : page;                          (* during detection and login *)
  storageState : option error;
  attempt_page : nat -> page;                 (* during the n-th engine call *)
  writeFileSync : jsstring -> option error;
  close : option error;                       (* [context.close()] *)
  rm_error : jsstring -> option error         (* other than a missing path *)
}.

Inductive event :=
| EvMkdtemp (dir : jsstring)
| EvLaunch (headless : bool) (slowMo : nat)
| EvCloseBrowser (b : browser)
| EvNewContext (b : browser) (seeded : bool)
| EvNewPage (c : context)
| EvGoto (u : jsstring)
| EvSettle (ms : nat)
| EvWait (ms : nat)
| EvClick (s : selector) (force : bool)
| EvEvaluateClick (s : selector)
| EvFill (s : selector) (value : jsstring)
| EvPopupClick
| EvStorageState
| EvSaveAs (path : jsstring)
| EvWriteFile (path : jsstring)
| EvRm (dir : jsstring)
| EvCloseContext (c : context).

(** The mutable state: the module's global, the browser processes and
    contexts alive, the file system, and the log of what was done. *)
Record world := World {
  sharedBrowser : option browser;
  connected : list browser;
  launches : nat;
  contexts : nat;
  open_contexts : list context;
  state_file : snapshot;
  dirs : list jsstring;
  files : list (jsstring * list N);
  trace : list event
}.

(** An asynchronous computation run alone: state passing with exceptions. *)
Definition M (A : Type) := world -> result A * world.

Definition ret {A} (a : A) : M A := fun w => (Ok a, w).

Definition throw {A} (e : error) : M A := fun w => (Throw e, w).

Definition bind {A B} (m : M A) (k : A -> M B) : M B :=
  fun w => match m w with
           | (Ok a, w') => k a w'
           | (Throw e, w') => (Throw e, w')
           end.

(** [try { m } catch (e) { h e }] *)
Definition try_catch {A} (m : M A) (h : error -> M A) : M A :=
  fun w => match m w with
           | (Ok a, w') => (Ok a, w')
           | (Throw e, w') => h e w'
           end.

(** [try { m } finally { f }] for a finaliser that cannot throw. *)
Definition finally {A} (m : M A) (f : M unit) : M A :=
  fun w => let (r, w') := m w in (r, snd (f w')).

Definition get : M world := fun w => (Ok w, w).

Definition modify (f : world -> world) : M unit := fun w => (Ok tt, f w).

Definition lift {A} (r : result A) : M A := fun w => (r, w).

(** The outcome of a call that returns nothing. *)
Definition check (o : option error) : M unit :=
  match o with
  | None => ret tt
  | Some e => throw e
  end.

Definition set_trace (t : list event) (w : world) : world :=
  World (sharedBrowser w) (connected w) (launches w) (contexts w)
        (open_contexts w) (state_file w) (dirs w) (files w) t.

Definition emit (e : event) : M unit :=
  modify (fun w => set_trace (trace w ++ [e]) w).

Definition set_sharedBrowser (b : option browser) (w : world) : world :=
  World b (connected w) (launches w) (contexts w)
        (open_contexts w) (state_file w) (dirs w) (files w) (trace w).

Definition set_connected (l : list browser) (w : world) : world :=
  World (sharedBrowser w) l (launches w) (contexts w)
        (open_contexts w) (state_file w) (dirs w) (files w) (trace w).

Definition set_launches (n : nat) (w : world) : world :=
  World (sharedBrowser w) (connected w) n (contexts w)
        (open_contexts w) (state_file w) (dirs w) (files w) (trace w).

Definition set_contexts (n : nat) (w : world) : world :=
  World (sharedBrowser w) (connected w) (launches w) n
        (open_contexts w) (state_file w) (dirs w) (files w) (trace w).

Definition set_open_contexts (l : list context) (w : world) : world :=
  World (sharedBrowser w) (connected w) (launches w) (contexts w)
        l (state_file w) (dirs w) (files w) (trace w).

Definition set_state_file (s : snapshot) (w : world) : world :=
  World (sharedBrowser w) (connected w) (launches w) (contexts w)
        (open_contexts w) s (dirs w) (files w) (trace w).

Definition set_fs (d : list jsstring) (f : list (jsstring * list N))
           (w : world) : world :=
  World (sharedBrowser w) (connected w) (launches w) (contexts w)
        (open_contexts w) (state_file w) d f (trace w).

Declare Scope js_scope.
Notation "x <- m ;; k" := (bind m (fun x => k))
  (at level 61, m at next level, right associativity) : js_scope.
Notation "m ;; k" := (bind m (fun _ => k))
  (at level 61, right associativity) : js_scope.

End World.

(** ** [src/services/aipptDownloader.js] run by one request at a time *)

Module Downloader.

Import World.
Local Open Scope js_scope.

(** The label of the download control, U+7ACB U+5373 U+4E0B U+8F7D. *)
Definition label : jsstring := [31435; 21363; 19979; 36733]%N.

Definition generic_name : jsstring := js "aippt-download".

Record options := Options {
  opt_headless : option bool;      (* [None]: undefined or null *)
  opt_slowMo : option nat
}.

(** The object the exported function resolves to; [cleanup] is the closure
    over [tmpDir]. *)
Record artifact := Artifact {
  filePath : jsstring;
  filename : jsstring;
  cleanup : M unit
}.

(** [options.headless ?? (headlessEnv ? headlessEnv !== 'false' : true)] *)
Definition headless_flag (o : options) (headlessEnv : option jsstring) : bool :=
  match opt_headless o with
  | Some b => b
  | None =>
      match headlessEnv with
      | Some v => if truthy v then negb (str_eqb v (js "false")) else true
      | None => true
      end
  end.

(** [options.slowMo ?? 0] *)
Definition slowMo_value (o : options) : nat :=
  match opt_slowMo o with
  | Some n => n
  | None => 0
  end.

(** [!value] for an environment variable. *)
Definition missing (v : option jsstring) : bool :=
  match v with
  | Some s => negb (truthy s)
  | None => true
  end.

(** [headers[name]] *)
Fixpoint header (name : jsstring) (hs : list (jsstring * jsstring))
  : option jsstring :=
  match hs with
  | [] => None
  | (k, v) :: hs' => if str_eqb k name then Some v else header name hs'
  end.

(** [headers['content-disposition'] || headers['Content-Disposition']] *)
Definition disposition (r : response) : option jsstring :=
  or_undef (header (js "content-disposition") (headers r))
           (header (js "Content-Disposition") (headers r)).

(** The predicate handed to [page.waitForResponse] (lines 110-119). *)
Definition is_file_response (r : response) : bool :=
  match disposition r with
  | Some disp =>
      if truthy disp && Regex.re_attachment disp then true
      else Regex.re_file_url (url r)
  | None => Regex.re_file_url (url r)
  end.

Section Program.

Variable E : env.

Definition isConnected (w : world) (b : browser) : bool :=
  existsb (Nat.eqb b) (connected w).

(** The ['disconnected'] handler registered on every launched browser. *)
Definition on_disconnected (b : browser) : M unit :=
  modify (fun w =>
    set_sharedBrowser None
      (set_connected (filter (fun x => negb (Nat.eqb x b)) (connected w)) w)).

(** [getSharedBrowser] (lines 9-35) when no other call is suspended in it:
    [launchingBrowser] is then null on entry, since both callbacks of a
    launch reset it before the promise settles, and lines 11-14 are skipped.
    The interleaved executions are the subject of module [Coalesce]. *)
Definition getSharedBrowser (headless : bool) (slowMo : nat) : M browser :=
  w <- get ;;
  let cached := match sharedBrowser w with
                | Some b => if isConnected w b then Some b else None
                | None => None
                end in
  match cached with
  | Some b => ret b
  | None =>
      let n := launches w in
      emit (EvLaunch headless slowMo) ;;
      modify (set_launches (S n)) ;;
      match launch E n with
      | None =>
          modify (fun w => set_sharedBrowser (Some n)
                             (set_connected (n :: connected w) w)) ;;
          ret n
      | Some e => throw e
      end
  end.

(** [fs.existsSync(stateFile)] *)
Definition existsSync_stateFile (w : world) : bool :=
  match state_file w with
  | NoFile => false
  | _ => true
  end.

(** [browser.newContext({ acceptDownloads: true, storageState: ... })].
    Playwright reads and parses the storage-state file before it asks the
    browser for a context, and rejects when the file cannot be parsed. *)
Definition browser_newContext (b : browser) : M context :=
  w <- get ;;
  let n := contexts w in
  emit (EvNewContext b (existsSync_stateFile w)) ;;
  modify (set_contexts (S n)) ;;
  match state_file w with
  | Corrupt => throw (Rejection "Error reading storage state"%string)
  | _ =>
      match newContext E n with
      | ContextCreated =>
          modify (fun w => set_open_contexts (n :: open_contexts w) w) ;;
          ret n
      | ContextFails e => throw e
      | BrowserGone e => on_disconnected b ;; throw e
      end
  end.

(** [openContextWithRetry] (lines 57-66). *)
Definition openContextWithRetry (b : browser) (headless : bool) (slowMo : nat)
  : M context :=
  c <- try_catch (browser_newContext b)
         (fun _ => b' <- getSharedBrowser headless slowMo ;;
                   browser_newContext b') ;;
  check (newPage E) ;;
  emit (EvNewPage c) ;;
  ret c.

(** [context.close().catch(() => {})] *)
Definition close_context (c : context) : M unit :=
  emit (EvCloseContext c) ;;
  match close E with
  | None =>
      modify (fun w =>
        set_open_contexts
          (filter (fun x => negb (Nat.eqb x c)) (open_contexts w)) w)
  | Some _ => ret tt
  end.

(** [waitForPageSettled] (lines 78-83): every wait in it is guarded. *)
Definition waitForPageSettled (extraDelayMs : nat) : M unit :=
  emit (EvSettle extraDelayMs).

Definition candidates : list selector :=
  [SelTrackedLabelled; SelTracked; SelButtonLabelled; SelAnchorLabelled;
   SelGradient; SelMl3].

(** The [for (const sel of candidates)] loop (lines 123-146).  The guarded
    scroll, the guarded wait for visibility and the text read whose test has
    an empty body leave no mark. *)
Fixpoint click_candidates (pg : page) (sels : list selector) : M bool :=
  match sels with
  | [] => ret false
  | sel :: rest =>
      n <- lift (count pg sel) ;;
      if 0 <? n then
        emit (EvClick sel false) ;;
        match click pg sel false with
        | None => ret true
        | Some _ =>
            emit (EvClick sel true) ;;
            match click pg sel true with
            | None => ret true
            | Some _ => click_candidates pg rest
            end
        end
      else click_candidates pg rest
  end.

Definition last_resort_selectors : list selector :=
  [SelTracked; SelGradient; SelMl3].

(** The function evaluated in the page (lines 149-165). *)
Fixpoint query_and_click (pg : page) (sels : list selector) : M bool :=
  match sels with
  | [] => ret false
  | s :: rest =>
      match querySelector pg s with
      | Some text =>
          if includes label text
          then emit (EvEvaluateClick s) ;; ret true
          else query_and_click pg rest
      | None => query_and_click pg rest
      end
  end.

(** The first response the listener's predicate accepts. *)
Definition responseListener (pg : page) : option response :=
  find is_file_response (responses pg).

(** Lines 173-185, entered when the download listener gave nothing: the
    download found in the popup, at once or after the click in it. *)
Definition popup_path (pg : page) : M (option download) :=
  match popup_event pg with
  | Some pop =>
      match popup_download pop with
      | Some d => ret (Some d)
      | None =>
          n <- lift (popup_count pop) ;;
          if 0 <? n
          then emit EvPopupClick ;; ret (popup_click_download pop)
          else ret None
      end
  | None => ret None
  end.

(** Lines 120-167: the search for the control and the click. *)
Definition search_and_click (pg : page) : M unit :=
  clicked <- click_candidates pg candidates ;;
  clicked <- (if clicked : bool then ret true
              else check (evaluate pg) ;;
                   query_and_click pg last_resort_selectors) ;;
  if negb clicked
  then throw (Error "未找到“立即下载”按钮"%string)
  else ret tt.

(** Lines 168-190: what the three listeners armed at lines 107-119 resolved
    to, taken in turn. *)
Definition resolve_signal (pg : page) : M (option signal) :=
  emit (EvWait 250) ;;
  check (waitForTimeout pg) ;;
  match download_event pg with
  | Some d => ret (Some (IsDownload d))
  | None =>
      download <- popup_path pg ;;
      match download with
      | Some d => ret (Some (IsDownload d))
      | None => ret (option_map IsResponse (responseListener pg))
      end
  end.

(** [clickImmediateDownload] (lines 96-191). *)
Definition clickImmediateDownload (pg : page) : M (option signal) :=
  waitForPageSettled 150 ;;
  search_and_click pg ;;
  resolve_signal pg.

(** The retry loops (lines 198-203 and 227-232) over the attempts left. *)
Fixpoint retry (settle_ms : nat) (attempts : list nat) : M (option signal) :=
  match attempts with
  | [] => ret None
  | i :: rest =>
      download <- try_catch (clickImmediateDownload (attempt_page E i))
                            (fun _ => ret None) ;;
      match download with
      | Some s => ret (Some s)
      | None => waitForPageSettled settle_ms ;; retry settle_ms rest
      end
  end.

(** Login detection (lines 89-94); both counts are answered by one page
    snapshot. *)
Definition loginRegisterBtn : M selector :=
  n <- lift (count (login_page E) SelLoginRegister) ;;
  ret (if n =? 0 then SelLoginAndRegister else SelLoginRegister).

(** A click followed by [.catch(() => {})]. *)
Definition click_guarded (s : selector) : M unit :=
  try_catch (emit (EvClick s false) ;; check (click (login_page E) s false))
            (fun _ => ret tt).

(** The login branch up to the stored session (lines 207-225). *)
Definition login (btn : selector) (c : context) (username password : jsstring)
  : M unit :=
  click_guarded btn ;;
  n <- lift (count (login_page E) SelSwitchPassword) ;;
  (if 0 <? n then click_guarded SelSwitchPassword else ret tt) ;;
  emit (EvFill SelAccount username) ;;
  check (fill (login_page E) SelAccount) ;;
  emit (EvFill SelPassword password) ;;
  check (fill (login_page E) SelPassword) ;;
  n <- lift (count (login_page E) SelSubmitSpan) ;;
  (if 0 <? n then click_guarded SelSubmitSpan else click_guarded SelSubmit) ;;
  waitForPageSettled 300 ;;
  emit EvStorageState ;;
  match storageState E with
  | None => modify (set_state_file (Saved c))
  | Some _ => ret tt
  end.

(** [fs.rmSync(dir, { recursive: true, force: true })]: with [force] a path
    that does not exist is not an error; any other failure is thrown. *)
Definition rmSync (dir : jsstring) : M unit :=
  emit (EvRm dir) ;;
  w <- get ;;
  if existsb (str_eqb dir) (dirs w) then
    match rm_error E dir with
    | Some e => throw e
    | None =>
        let inside p := match strip_prefix (dir ++ [c_slash]) p with
                        | Some _ => true
                        | None => false
                        end in
        modify (set_fs
                  (filter (fun d => negb (str_eqb dir d) && negb (inside d))
                          (dirs w))
                  (filter (fun f => negb (inside (fst f))) (files w)))
    end
  else ret tt.

Definition write_file (p : jsstring) (bytes : list N) : M unit :=
  modify (fun w => set_fs (dirs w) ((p, bytes) :: files w) w).

(** The file name taken from a response (lines 247-257). *)
Definition response_filename (resp : response) : M jsstring :=
  let disp := match disposition resp with
              | Some d => d
              | None => []
              end in
  match Regex.re_filename_exec disp with
  | Some m =>
      let captured :=
        match or_undef (Regex.group1 m) (Regex.group2 m) with
        | Some v => v
        | None => []
        end in
      match decodeURIComponent (trim captured) with
      | Some name => ret name
      | None => throw (Rejection "URIError"%string)
      end
  | None =>
      match Url.pathname (url resp) with
      | Some p =>
          let last := Path.pop (Path.split_slash p) in
          ret (if truthy last then last else generic_name)
      | None => throw (Rejection "TypeError: Invalid URL"%string)
      end
  end.

(** Lines 238-261: from the signal to the returned object. *)
Definition materialize (tmpDir : jsstring) (download : signal) : M artifact :=
  match download with
  | IsDownload d =>
      let filePath := Path.join tmpDir
                        (or_str (suggestedFilename d) generic_name) in
      emit (EvSaveAs filePath) ;;
      check (saveAs d) ;;
      write_file filePath (payload d) ;;
      ret (Artifact filePath (Path.basename filePath) (rmSync tmpDir))
  | IsResponse resp =>
      name <- response_filename resp ;;
      buf <- lift (body resp) ;;
      let filePath := Path.join tmpDir name in
      emit (EvWriteFile filePath) ;;
      check (writeFileSync E filePath) ;;
      write_file filePath buf ;;
      ret (Artifact filePath (Path.basename filePath) (rmSync tmpDir))
  end.

(** The body of the [try] (lines 69-261).  The console listener and the
    guarded waits for a load state leave no mark. *)
Definition request_body (templateUrl tmpDir : jsstring) (c : context)
           (username password : jsstring) : M artifact :=
  emit (EvGoto templateUrl) ;;
  check (goto E) ;;
  waitForPageSettled 250 ;;
  emit (EvWait 200) ;;
  check (settle_wait E) ;;
  btn <- loginRegisterBtn ;;
  n <- lift (count (login_page E) btn) ;;
  let isLoginRequired := 0 <? n in
  download <-
    (if negb isLoginRequired then
       waitForPageSettled 250 ;;
       retry 200 (seq 0 3)
     else
       login btn c username password ;;
       retry 250 (seq 0 3)) ;;
  match download with
  | None => throw (Error "下载未开始"%string)
  | Some s => materialize tmpDir s
  end.

(** [downloadAipptTemplate] (lines 37-266). *)
Definition downloadAipptTemplate (templateUrl : jsstring) (o : options)
  : M artifact :=
  if negb (Regex.re_template_url templateUrl)
  then throw (Error "Invalid template URL"%string)
  else
    if missing (AIPPT_USERNAME E) || missing (AIPPT_PASSWORD E)
    then throw (Error "Missing AIPPT_USERNAME/AIPPT_PASSWORD"%string)
    else
      let username := match AIPPT_USERNAME E with Some u => u | None => [] end in
      let password := match AIPPT_PASSWORD E with Some p => p | None => [] end in
      tmpDir <- lift (mkdtempSync E) ;;
      emit (EvMkdtemp tmpDir) ;;
      modify (fun w => set_fs (tmpDir :: dirs w) (files w) w) ;;
      let headless := headless_flag o (PLAYWRIGHT_HEADLESS E) in
      let slowMo := slowMo_value o in
      b <- getSharedBrowser headless slowMo ;;
      c <- openContextWithRetry b headless slowMo ;;
      finally (request_body templateUrl tmpDir c username password)
              (close_context c).

End Program.

End Downloader.

(** ** [getSharedBrowser] under interleaving

    The function suspends at two places: line 12, on a launch another call
    started, and line 33, on the launch it started itself.  Calls arrive as
    tasks of the event loop; when the promise of a launch settles, its
    callback and then every call suspended on it run as one batch of
    micro-tasks, in the order the calls subscribed, before any further task. *)

Module Coalesce.

Import World.

Inductive status :=
| AwaitingOther (l : nat)     (* suspended at line 12 *)
| AwaitingOwn (l : nat)       (* suspended at line 33 *)
| Returned (b : browser)
| Failed (e : error).

(** The module's two globals, the processes alive, and the number of
    [chromium.launch] calls made; the browser of launch [l] is [l]. *)
Record globals := Globals {
  sharedBrowser : option browser;
  launchingBrowser : option nat;
  connected : list browser;
  launches : nat
}.

Record state := State {
  vars : globals;
  callers : list status          (* in order of arrival *)
}.

Definition init : state := State (Globals None None [] 0) [].

(** [sharedBrowser && sharedBrowser.isConnected()] *)
Definition cached (g : globals) : option browser :=
  match sharedBrowser g with
  | Some b => if existsb (Nat.eqb b) (connected g) then Some b else None
  | None => None
  end.

(** Lines 15-33 up to the suspension. *)
Definition start_launch (g : globals) : globals * status :=
  let l := launches g in
  (Globals (sharedBrowser g) (Some l) (connected g) (S l), AwaitingOwn l).

(** Lines 10-12 and, with no launch in flight, 15-33. *)
Definition enter (g : globals) : globals * status :=
  match cached g with
  | Some b => (g, Returned b)
  | None =>
      match launchingBrowser g with
      | Some l => (g, AwaitingOther l)
      | None => start_launch g
      end
  end.

(** The callbacks of lines 25-32. *)
Definition settle_callback (l : nat) (outcome : option error) (g : globals)
  : globals :=
  match outcome with
  | None => Globals (Some l) None (l :: connected g) (launches g)
  | Some _ => Globals (sharedBrowser g) None (connected g) (launches g)
  end.

(** One suspended call resumed by the settlement of launch [l]. *)
Definition resume_one (l : nat) (outcome : option error) (g : globals)
           (c : status) : globals * status :=
  match c with
  | AwaitingOwn l' =>
      if Nat.eqb l' l then
        match outcome with
        | None =>                       (* lines 33-34 *)
            (Globals (Some l) (launchingBrowser g) (connected g) (launches g),
             Returned l)
        | Some e => (g, Failed e)
        end
      else (g, c)
  | AwaitingOther l' =>
      if Nat.eqb l' l then              (* lines 12-13, the error ignored *)
        match cached g with
        | Some b => (g, Returned b)
        | None => start_launch g
        end
      else (g, c)
  | _ => (g, c)
  end.

Fixpoint resume (l : nat) (outcome : option error) (g : globals)
         (cs : list status) : globals * list status :=
  match cs with
  | [] => (g, [])
  | c :: cs' =>
      let (g1, c1) := resume_one l outcome g c in
      let (g2, cs2) := resume l outcome g1 cs' in
      (g2, c1 :: cs2)
  end.

Inductive event :=
| Call                                        (* a call of the function *)
| Settle (l : nat) (outcome : option error)   (* launch [l] settles *)
| Disconnect (b : browser).                   (* ['disconnected'] fires *)

Definition step (s : state) (e : event) : state :=
  match e with
  | Call =>
      let (g, c) := enter (vars s) in
      State g (callers s ++ [c])
  | Settle l outcome =>
      let (g, cs) := resume l outcome (settle_callback l outcome (vars s))
                            (callers s) in
      State g cs
  | Disconnect b =>
      let g := vars s in
      State (Globals None (launchingBrowser g)
                     (filter (fun x => negb (Nat.eqb x b)) (connected g))
                     (launches g))
            (callers s)
  end.

Definition run (s : state) (es : list event) : state := fold_left step es s.

(** The globals as a request running alone finds them. *)
Definition globals_of (w : world) : globals :=
  Globals (World.sharedBrowser w) None (World.connected w) (World.launches w).

(** One call with nobody else around: it enters and, if it started a
    launch, resumes when that launch settles as the environment decides. *)
Definition alone (E : env) (w : world) : state :=
  let entered := step (State (globals_of w) []) Call in
  match callers entered with
  | [AwaitingOwn l] => step entered (Settle l (launch E l))
  | _ => entered
  end.

End Coalesce.

(** ** What the specification expects, in its own words

    These definitions follow the specification, not the source; the
    theorems compare the program with them. *)

Module Expected.

Import World Downloader.








(** The download a popup leads to: the one nested in it or, failing that,
    the one that follows a click on a download control found in it. *)
Definition popup_signal (pg : page) : option download :=
  match popup_event pg with
  | Some pop =>
      match popup_download pop with
      | Some d => Some d
      | None =>
          match popup_count pop with
          | Ok (S _) => popup_click_download pop
          | _ => None
          end
      end
  | None => None
  end.

(** Native download first, then the popup path, then the network response. *)
Definition expected_signal (pg : page) : option signal :=
  match download_event pg with
  | Some d => Some (IsDownload d)
  | None =>
      match popup_signal pg with
      | Some d => Some (IsDownload d)
      | None => option_map IsResponse (responseListener pg)
      end
  end.

(** The two steps of the resolution that nothing guards: the wait after
    the click and, on the popup path when no download is nested in the
    popup, the query that looks for a download control in it.  The error of
    the first of them to reject, if any. *)
Definition unguarded_rejection (pg : page) : option error :=
  match waitForTimeout pg with
  | Some e => Some e
  | None =>
      match download_event pg, popup_event pg with
      | None, Some pop =>
          match popup_download pop, popup_count pop with
          | None, Throw e => Some e
          | _, _ => None
          end
      | _, _ => None
      end
  end.

(** The steps of the login protocol that nothing guards, in the order they
    are taken: the query for the switch to password login, the two fills,
    the query for the label of the submit button.  The error of the first of
    them to reject, if any. *)
Definition login_rejection (pg : page) : option error :=
  match count pg SelSwitchPassword with
  | Throw e => Some e
  | Ok _ =>
      match fill pg SelAccount with
      | Some e => Some e
      | None =>
          match fill pg SelPassword with
          | Some e => Some e
          | None =>
              match count pg SelSubmitSpan with
              | Throw e => Some e
              | Ok _ => None
              end
          end
      end
  end.

(** One of the three armed listeners resolved to something. *)
Definition fired (pg : page) : Prop :=
  download_event pg <> None \/ popup_event pg <> None
  \/ responseListener pg <> None.

(** The events a computation adds to the log all satisfy [P]. *)
Definition emits {A} (P : event -> Prop) (m : M A) : Prop :=
  forall w, exists added,
    trace (snd (m w)) = trace w ++ added /\ Forall P added.

(** What the engine may do to the page. *)
Definition engine_event (e : event) : Prop :=
  match e with
  | EvSettle _ | EvWait _ | EvClick _ _ | EvEvaluateClick _ | EvPopupClick =>
      True
  | _ => False
  end.

(** What the body of the request may do once its page exists. *)
Definition body_event (e : event) : Prop :=
  match e with
  | EvGoto _ | EvFill _ _ | EvStorageState | EvSaveAs _ | EvWriteFile _ =>
      True
  | _ => engine_event e
  end.

(** What happens before the page exists, for a given launch
    configuration. *)
Definition setup_event (headless : bool) (slowMo : nat) (e : event) : Prop :=
  match e with
  | EvMkdtemp _ | EvNewContext _ _ => True
  | EvLaunch h s => h = headless /\ s = slowMo
  | _ => False
  end.

(** Every context the retrying creation asks for is seeded as [seeded]. *)
Definition contexts_seeded (seeded : bool) (added : list event) : Prop :=
  forall b s, In (EvNewContext b s) added -> s = seeded.

(** The same file name on both sides: the claimed two-step derivation,
    the extended parameter looked for in the whole header before the plain
    one is considered. *)
Fixpoint search {A} (at_head : jsstring -> option A) (s : jsstring)
  : option A :=
  match at_head s with
  | Some v => Some v
  | None => match s with
            | [] => None
            | _ :: s' => search at_head s'
            end
  end.

Definition two_step_capture (disp : jsstring) : option jsstring :=
  match search Regex.filename_star_at disp with
  | Some v => Some v
  | None => search Regex.filename_plain_at disp
  end.

End Expected.

(** ** Concrete pages, responses and environments *)

Module Fixtures.

Import World Downloader.

Definition timeout : error := Rejection "TimeoutError".

(** [attachment; filename=QUOTE x.pptx QUOTE] *)
Definition disposition_x : jsstring :=
  js "attachment; filename=" ++ [c_dquote] ++ js "x.pptx" ++ [c_dquote].

(** The plain parameter first, the extended one after it, as RFC 6266
    recommends sending them. *)
Definition disposition_both : jsstring :=
  js "attachment; filename=" ++ [c_dquote] ++ js "a.pptx" ++ [c_dquote]
     ++ js "; filename*=UTF-8''b.pptx".

Definition response_x : response :=
  Response (js "https://dl.example.com/get")
           [(js "content-disposition", disposition_x)] (Ok [80; 75]%N).

Definition response_both : response :=
  Response (js "https://dl.example.com/get")
           [(js "content-disposition", disposition_both)] (Ok [80; 75]%N).

Definition response_report : response :=
  Response (js "https://dl.example.com/files/report.pdf?x=1") [] (Ok [37]%N).

Definition response_bare : response :=
  Response (js "https://dl.example.com/") [] (Ok [37]%N).

(** A page on which nothing is found and nothing happens. *)
Definition blank : page :=
  Page (fun _ => Ok 0) (fun _ _ => Some timeout) (fun _ => Some timeout)
       (fun _ => None) None None None None [].

(** Only the third candidate matches, and its click goes through. *)
Definition third_only (d : option download) (p : option popup)
           (rs : list response) : page :=
  Page (fun s => match s with SelButtonLabelled => Ok 1 | _ => Ok 0 end)
       (fun s _ => match s with SelButtonLabelled => None | _ => Some timeout end)
       (fun _ => Some timeout) (fun _ => None) None None d p rs.

Definition network_only : page := third_only None None [response_x].

(** Four selectors match.  The second takes no click, plain or forced; the
    third, the fourth and the fifth would each take one. *)
Definition several_match : page :=
  Page (fun s => match s with
                 | SelTracked | SelButtonLabelled | SelAnchorLabelled
                 | SelGradient => Ok 1
                 | _ => Ok 0
                 end)
       (fun s _ => match s with
                   | SelButtonLabelled | SelAnchorLabelled | SelGradient => None
                   | _ => Some timeout
                   end)
       (fun _ => Some timeout) (fun _ => None) None None None None [].

(** The popup shows no nested download and the query for a download control
    in it rejects, while a matching response has been captured. *)
Definition popup_query_rejects : page :=
  third_only None (Some (Popup None (Throw timeout) None)) [response_x].

(** A login dialog whose fields can be filled, on which the query for the
    switch to password login rejects. *)
Definition login_query_rejects : page :=
  Page (fun s => match s with
                 | SelLoginRegister => Ok 1
                 | SelSwitchPassword => Throw timeout
                 | _ => Ok 0
                 end)
       (fun _ _ => None) (fun _ => None) (fun _ => None)
       None None None None [].

(** The click opens a page in which no download ever starts. *)
Definition popup_only : page :=
  third_only None (Some (Popup None (Ok 0) None)) [].

(** A login dialog whose fields can be filled but which shows no submit
    control at all. *)
Definition login_without_submit : page :=
  Page (fun s => match s with SelLoginRegister => Ok 1 | _ => Ok 0 end)
       (fun s _ => match s with SelLoginRegister => None | _ => Some timeout end)
       (fun _ => None) (fun _ => None) None None None None [].

Definition tmp : jsstring := js "/tmp/aippt-Ab12Cd".

Definition environment (new_page : option error) (login_pg : page)
           (attempt : nat -> page) (rm : option error) : env :=
  Env (Some (js "user")) (Some (js "secret")) None (Ok tmp)
      (fun _ => None) (fun _ => ContextCreated) new_page None None
      login_pg None attempt (fun _ => None) None (fun _ => rm).

(** Everything works and the file arrives as a plain network response. *)
Definition good : env := environment None blank (fun _ => network_only) None.

Definition page_never_opens : env :=
  environment (Some timeout) blank (fun _ => network_only) None.

Definition download_never_starts : env :=
  environment None blank (fun _ => blank) None.

Definition removal_denied : env :=
  environment None blank (fun _ => network_only) (Some (Rejection "EACCES")).

Definition fresh (s : snapshot) : world := World None [] 0 0 [] s [] [] [].

Definition template : jsstring := js "https://www.aippt.cn/template/1".

Definition defaults : options := Options None None.

End Fixtures.

(** ** Frame conditions

    What a computation leaves alone, and what its result does not depend
    on. *)

Module Frames.

Import World.

(** [m] leaves the observation [f] of the world as it found it. *)
Definition keeps {A X : Type} (f : world -> X) (m : M A) : Prop :=
  forall w, f (snd (m w)) = f w.

(** The result of [m] is the same in every world. *)
Definition same_result {A : Type} (m : M A) : Prop :=
  forall w w', fst (m w) = fst (m w').

(** The absolute normalised path made of the given segments. *)
Definition absolute (segs : list jsstring) : jsstring :=
  c_slash :: Path.join_slash segs.

(** [p] lies under the directory [dir]. *)
Definition under (dir p : jsstring) : bool :=
  match strip_prefix (dir ++ [c_slash]) p with
  | Some _ => true
  | None => false
  end.

(** An observation that does not look at the log. *)
Definition log_blind {X : Type} (f : world -> X) : Prop :=
  forall t w, f (set_trace t w) = f w.

(** An observation that looks neither at the log nor at the files. *)
Definition file_blind {X : Type} (f : world -> X) : Prop :=
  log_blind f /\ forall p bytes w, f (set_fs (dirs w) ((p, bytes) :: files w) w) = f w.

(** The events of the login protocol: typing into a field and storing the
    session. *)
Definition login_event (e : event) : Prop :=
  match e with
  | EvFill _ _ | EvStorageState => True
  | _ => False
  end.

End Frames.

(** ** Outcomes of the engine attempts *)

Module Outcomes.

Import World Downloader.

(** The [i]-th engine call of a request resolves the signal [s]. *)
Definition resolves (E : env) (i : nat) (s : signal) : Prop :=
  forall w, fst (clickImmediateDownload (attempt_page E i) w) = Ok (Some s).

(** The [i]-th engine call resolves nothing: it returns null or throws. *)
Definition resolves_nothing (E : env) (i : nat) : Prop :=
  forall s w,
    fst (clickImmediateDownload (attempt_page E i) w) <> Ok (Some s).

End Outcomes.

(** ** [encodeURIComponent]

    ECMA-262, Encode with the unreserved set of [encodeURIComponent]:
    letters, digits and the marks [- _ . ! ~ * ' ( )] are copied, every
    other code point is written as the percent escapes of its UTF-8 octets,
    in upper-case hexadecimal.  [None] stands for the [URIError] thrown on
    an unpaired surrogate. *)

Module Uri.

Local Open Scope N_scope.

Definition unreserved (c : N) : bool :=
  in_range 65 90 c || in_range 97 122 c || in_range 48 57 c
  || existsb (N.eqb c) [45; 95; 46; 33; 126; 42; 39; 40; 41].

Definition hexdigit (d : N) : N := if d <? 10 then 48 + d else 55 + d.

Definition escape (b : N) : jsstring :=
  [c_percent; hexdigit (b / 16); hexdigit (b mod 16)].

(** The UTF-8 octets of a code point. *)
Definition utf8 (v : N) : list N :=
  if v <? 128 then [v]
  else if v <? 2048 then [192 + v / 64; 128 + v mod 64]
  else if v <? 65536 then
    [224 + v / 4096; 128 + (v / 64) mod 64; 128 + v mod 64]
  else
    [240 + v / 262144; 128 + (v / 4096) mod 64; 128 + (v / 64) mod 64;
     128 + v mod 64].

Definition escape_all (octets : list N) : jsstring := flat_map escape octets.

(** The code point of a surrogate pair. *)
Definition pair_value (lead trail : N) : N :=
  65536 + (lead - 55296) * 1024 + (trail - 56320).

Fixpoint encodeURIComponent (s : jsstring) : option jsstring :=
  match s with
  | [] => Some []
  | c :: r =>
      if unreserved c then option_map (cons c) (encodeURIComponent r)
      else if in_range 56320 57343 c then None
      else if in_range 55296 56319 c then
        match r with
        | trail :: r' =>
            if in_range 56320 57343 trail
            then option_map (app (escape_all (utf8 (pair_value c trail))))
                            (encodeURIComponent r')
            else None
        | [] => None
        end
      else option_map (app (escape_all (utf8 c))) (encodeURIComponent r)
  end.

(** A string all of whose elements are 16-bit code units. *)
Definition code_units (s : jsstring) : Prop := Forall (fun c => c < 65536) s.

End Uri.

(** ** The route that serves a template ([server.js])

    [isTokenValid] and the handler of [GET /api/aippt-download], which
    accepts a request on its token, awaits [downloadAipptTemplate], counts the
    use and pipes the file.  The store is lowdb's: [db.read()] replaces
    [db.data] by the parsed file when there is one, [db.write()] replaces the
    file by [db.data].  Numbers are the finite ones JSON holds; a row has the
    fields the creating route writes. *)

Module Server.

Import JS World Downloader Uri.

Record token_row := TokenRow {
  row_id : Z;
  row_token : jsstring;
  max_downloads : option Q;         (* [null], or the limit *)
  downloads_used : Z;
  expires_at : option jsstring      (* [null], or the date as text *)
}.

Record db_data := DbData {
  tokens : list token_row;
  db_seq : Z;
  totalDownloads : Z;
  totalBytes : Z
}.

(** [data/app.json] *)
Inductive stored :=
| Absent
| Unparsable (e : error)
| Content (d : db_data).

Record database := Database {
  data : db_data;                   (* [db.data] *)
  file : stored
}.

(** What the handler asks of its host: the clock, [Date]'s parser and the
    outcome of writing the file. *)
Record host := Host {
  today_start : Z;                  (* [new Date(today.toDateString())], in ms *)
  Date_parse : jsstring -> option Z; (* [None]: an invalid date *)
  write_error : option error
}.

(** [await db.read()] *)
Definition db_read (d : database) : result database :=
  match file d with
  | Absent => Ok d
  | Unparsable e => Throw e
  | Content c => Ok (Database c (file d))
  end.

(** [await db.write()] *)
Definition db_write (H : host) (d : database) : result database :=
  match write_error H with
  | Some e => Throw e
  | None => Ok (Database (data d) (Content (data d)))
  end.

Inductive validity :=
| Valid
| NotFound
| Expired
| Exhausted.

(** [isTokenValid] (lines 109-121).  A comparison with an invalid date is
    false. *)
Definition isTokenValid (H : host) (tokenRow : option token_row) : validity :=
  match tokenRow with
  | None => NotFound
  | Some r =>
      let expiresAt :=
        match expires_at r with
        | Some s => if truthy s then Some (Date_parse H s) else None
        | None => None
        end in
      let expired :=
        match expiresAt with
        | Some (Some t) => (t <? today_start H)%Z
        | _ => false
        end in
      let exhausted :=
        match max_downloads r with
        | Some m => Qle_bool m (inject_Z (downloads_used r))
        | None => false
        end in
      if expired then Expired
      else if exhausted then Exhausted
      else Valid
  end.

(** [req.query]: each parameter a string, or undefined. *)
Record query := Query {
  q_token : option jsstring;
  q_url : option jsstring
}.

Inductive json_body :=
| MissingTokenOrUrl                 (* [{ error: 'missing token or url' }] *)
| InvalidLink                       (* the message of a refused token *)
| Failed (e : error).               (* [{ error: err.message || fallback }] *)

(** What the client is sent: a status with a JSON body, or the file piped
    under a content-disposition header, with the handler of the stream's
    ['close']. *)
Inductive reply :=
| Json (status : N) (b : json_body)
| Piped (content_disposition : jsstring) (path : jsstring) (on_close : M unit).

(** [tokens.find(t => t.token === token)] *)
Definition find_token (token : jsstring) (rows : list token_row)
  : option token_row :=
  find (fun t => str_eqb (row_token t) token) rows.

(** [tokens.findIndex(t => t.id === id)] *)
Fixpoint findIndex (id : Z) (rows : list token_row) : option nat :=
  match rows with
  | [] => None
  | t :: rest =>
      if (row_id t =? id)%Z then Some O
      else option_map S (findIndex id rest)
  end.

(** The whole numbers whose successor a double holds exactly: on them the
    sum of [downloads_used += 1] is the mathematical one.  From [2^53] on
    the double sum rounds, and is not embedded. *)
Definition exact_count (n : Z) : Prop := (- 2 ^ 53 <= n < 2 ^ 53)%Z.

(** The row after [downloads_used += 1], for a count in [exact_count]. *)
Definition used_once_more (r : token_row) : token_row :=
  TokenRow (row_id r) (row_token r) (max_downloads r)
           (downloads_used r + 1)%Z (expires_at r).

(** [tokens[idx].downloads_used += 1] for an index [findIndex] returned. *)
Fixpoint increment_at (idx : nat) (rows : list token_row) : list token_row :=
  match rows, idx with
  | [], _ => []
  | t :: rest, O => used_once_more t :: rest
  | t :: rest, S i => t :: increment_at i rest
  end.

Definition set_tokens (rows : list token_row) (d : database) : database :=
  Database (DbData rows (db_seq (data d)) (totalDownloads (data d))
                   (totalBytes (data d)))
           (file d).

(** The value of a parameter that is not falsy. *)
Definition given (v : option jsstring) : option jsstring :=
  match v with
  | Some s => if truthy s then Some s else None
  | None => None
  end.

(** Lines 264-268: what is decided before the downloader is called.  A
    failing [db.read()] is outside the [try]: the handler's promise rejects
    and nothing is replied. *)
Inductive decision :=
| Refused (r : result reply)
| Accepted (url : jsstring) (row : token_row).

Definition check_request (H : host) (q : query) (d : database)
  : decision * database :=
  match given (q_token q), given (q_url q) with
  | Some token, Some url =>
      match db_read d with
      | Throw e => (Refused (Throw e), d)
      | Ok d1 =>
          let row := find_token token (tokens (data d1)) in
          match isTokenValid H row, row with
          | Valid, Some r => (Accepted url r, d1)
          | _, _ => (Refused (Ok (Json 400 InvalidLink)), d1)
          end
      end
  | _, _ => (Refused (Ok (Json 400 MissingTokenOrUrl)), d)
  end.

(** The header of line 278; [encodeURIComponent] throws on a name that is
    not well formed. *)
Definition pipe_file (a : artifact) : reply :=
  match encodeURIComponent (filename a) with
  | Some encoded =>
      Piped (js "attachment; filename=" ++ [c_dquote] ++ encoded ++ [c_dquote])
            (filePath a) (cleanup a)
  | None => Json 500 (Failed (Rejection "URIError"))
  end.

(** Lines 272-284: what follows the downloader's result, inside the [try]. *)
Definition settle (H : host) (row : token_row) (a : artifact) (d : database)
  : reply * database :=
  match findIndex (row_id row) (tokens (data d)) with
  | Some idx =>
      let d1 := set_tokens (increment_at idx (tokens (data d))) d in
      match db_write H d1 with
      | Ok d2 => (pipe_file a, d2)
      | Throw e => (Json 500 (Failed e), d1)
      end
  | None => (pipe_file a, d)
  end.

(** [GET /api/aippt-download] (lines 263-288), one request at a time. *)
Definition get_aippt_download (H : host) (E : env) (q : query)
           (d : database) (w : world) : result reply * database * world :=
  match check_request H q d with
  | (Refused r, d1) => (r, d1, w)
  | (Accepted url row, d1) =>
      match downloadAipptTemplate E url (Options (Some true) None) w with
      | (Ok a, w1) =>
          let (r, d2) := settle H row a d1 in (Ok r, d2, w1)
      | (Throw e, w1) => (Ok (Json 500 (Failed e)), d1, w1)
      end
  end.

(** Requests served one after the other, each with its own host and
    environment. *)
Fixpoint serve_all (requests : list (host * env * query)) (d : database)
         (w : world) : database * world :=
  match requests with
  | [] => (d, w)
  | (H, E, q) :: rest =>
      match get_aippt_download H E q d w with
      | (_, d1, w1) => serve_all rest d1 w1
      end
  end.

(** No two rows share an id, every limit is a whole number, and no row is
    used beyond its limit. *)
Definition whole_limit (r : token_row) : Prop :=
  match max_downloads r with
  | Some m => exists k : Z, (m == inject_Z k)%Q
  | None => True
  end.

Definition within_limit (r : token_row) : Prop :=
  match max_downloads r with
  | Some m => (inject_Z (downloads_used r) <= m)%Q
  | None => True
  end.

Definition sound (c : db_data) : Prop :=
  NoDup (map row_id (tokens c))
  /\ Forall whole_limit (tokens c)
  /\ Forall within_limit (tokens c).

Definition sound_store (d : database) : Prop :=
  sound (data d)
  /\ match file d with
     | Content c => sound c
     | _ => True
     end.


(** *** A store with two links, and a request for the first *)

Definition host_ok : host := Host 1000 (fun _ => Some 2000%Z) None.

Definition link : token_row :=
  TokenRow 1 (js "tok") (Some (inject_Z 1)) 0 None.

Definition unlimited : token_row := TokenRow 2 (js "kot") None 5 None.

Definition store : database :=
  Database (DbData [] 0 0 0) (Content (DbData [link; unlimited] 2 0 0)).

Definition request : query :=
  Query (Some (js "tok")) (Some Fixtures.template).

End Server.

(** * Properties *)

(** The monad operations unfolded and reduced away. *)
Ltac run_monad :=
  cbv beta iota zeta delta
      [World.try_catch World.finally World.bind World.check World.get
       World.emit World.modify World.ret World.throw World.lift];
  simpl.

(** Case analysis on a scrutinee that contains no other case analysis. *)
Ltac destruct_inner :=
  match goal with
  | |- context [match ?x with _ => _ end] =>
      lazymatch x with
      | context [match _ with _ => _ end] => fail
      | _ => destruct x; simpl
      end
  end.

(** ** Strings and paths *)

Module StringFacts.

Local Open Scope N_scope.

Lemma str_eqb_eq (a b : jsstring) : str_eqb a b = true <-> a = b.
Proof.
  revert b; induction a as [|x a IH]; intros [|y b]; simpl;
    try (split; (reflexivity || discriminate)).
  rewrite andb_true_iff, N.eqb_eq, IH.
  split; [intros [-> ->]; reflexivity | intros [= -> ->]; auto].
Qed.

Lemma str_eqb_refl (a : jsstring) : str_eqb a a = true.
Proof. apply str_eqb_eq; reflexivity. Qed.

Lemma strip_prefix_app (p s : jsstring) : strip_prefix p (p ++ s) = Some s.
Proof.
  induction p as [|x p IH]; simpl; [reflexivity|].
  rewrite N.eqb_refl; exact IH.
Qed.

Lemma strip_prefix_some (p s r : jsstring) :
  strip_prefix p s = Some r -> s = p ++ r.
Proof.
  revert s; induction p as [|x p IH]; intros [|y s]; simpl;
    try discriminate; try (intros [= ->]; reflexivity).
  destruct (N.eqb_spec x y) as [->|]; [|discriminate].
  intros H; rewrite (IH _ H); reflexivity.
Qed.

(** The URL test of line 38 accepts exactly the strings that start with one
    of the two schemes, in lower case. *)
Lemma re_template_url_spec (s : jsstring) :
  Regex.re_template_url s = true <->
  exists r, s = js "http://" ++ r \/ s = js "https://" ++ r.
Proof.
  unfold Regex.re_template_url. split.
  - destruct (strip_prefix (js "http://") s) as [r|] eqn:H1.
    + intros _; exists r; left; apply strip_prefix_some; exact H1.
    + destruct (strip_prefix (js "https://") s) as [r|] eqn:H2;
        [|discriminate].
      intros _; exists r; right; apply strip_prefix_some; exact H2.
  - intros [r [-> | ->]].
    + rewrite strip_prefix_app; reflexivity.
    + rewrite (strip_prefix_app (js "https://") r).
      destruct (strip_prefix _ _); reflexivity.
Qed.

End StringFacts.

Module PathFacts.

Import Path StringFacts.
Local Open Scope N_scope.

Lemma split_slash_nonempty (s : jsstring) : split_slash s <> [].
Proof.
  destruct s as [|c s]; simpl; [discriminate|].
  destruct (c =? c_slash); [discriminate|].
  destruct (split_slash s); discriminate.
Qed.

Lemma split_slash_segment (name : jsstring) :
  forallb (fun c => negb (c =? c_slash)) name = true ->
  split_slash name = [name].
Proof.
  induction name as [|c name IH]; simpl; [reflexivity|].
  rewrite andb_true_iff, negb_true_iff; intros [Hc Hn].
  rewrite Hc, (IH Hn); reflexivity.
Qed.

Lemma split_slash_snoc (a name : jsstring) :
  forallb (fun c => negb (c =? c_slash)) name = true ->
  split_slash (a ++ c_slash :: name) = split_slash a ++ [name].
Proof.
  intros Hn; induction a as [|c a IH]; simpl.
  - rewrite (split_slash_segment _ Hn); reflexivity.
  - destruct (c =? c_slash); rewrite IH; [reflexivity|].
    destruct (split_slash a) as [|seg segs] eqn:E; [|reflexivity].
    exfalso; exact (split_slash_nonempty _ E).
Qed.

Lemma normalize_segments_app (aa : bool) (xs ys stack : list jsstring) :
  normalize_segments aa stack (xs ++ ys)
  = normalize_segments aa (normalize_segments aa stack xs) ys.
Proof.
  revert stack; induction xs as [|x xs IH]; intros stack; simpl;
    [reflexivity|].
  destruct (truthy x && negb (is_dot x)); [|apply IH].
  destruct (is_dotdot x); [|apply IH].
  destruct stack as [|top below]; [apply IH|].
  destruct (is_dotdot top); apply IH.
Qed.

Lemma normalize_segments_plain (aa : bool) (stack : list jsstring)
      (name : jsstring) :
  plain name = true -> normalize_segments aa stack [name] = name :: stack.
Proof.
  unfold plain; rewrite !andb_true_iff, !negb_true_iff.
  intros [[[Ht _] Hd] Hdd]; simpl; rewrite Ht, Hd, Hdd; reflexivity.
Qed.

Lemma join_slash_snoc (segs : list jsstring) (name : jsstring) :
  exists pre, join_slash (segs ++ [name]) = pre ++ name
              /\ (pre = [] \/ exists q, pre = q ++ [c_slash]).
Proof.
  induction segs as [|seg segs IH]; simpl.
  - exists []; split; [reflexivity | left; reflexivity].
  - destruct IH as [pre [E Hpre]].
    destruct (segs ++ [name]) as [|y ys] eqn:Eapp.
    + destruct segs; discriminate.
    + rewrite E. exists (seg ++ c_slash :: pre); split.
      * rewrite <- app_assoc; reflexivity.
      * right; destruct Hpre as [-> | [q ->]].
        -- exists seg; reflexivity.
        -- exists (seg ++ c_slash :: q).
           rewrite <- app_assoc; reflexivity.
Qed.

Lemma span_all (p : N -> bool) (a b : jsstring) :
  forallb p a = true ->
  (b = [] \/ exists c b', b = c :: b' /\ p c = false) ->
  span p (a ++ b) = (a, b).
Proof.
  intros Ha Hb; induction a as [|x a IH]; simpl in *.
  - destruct Hb as [-> | [c [b' [-> Hc]]]]; simpl;
      [reflexivity | rewrite Hc; reflexivity].
  - apply andb_true_iff in Ha as [Hx Ha].
    rewrite Hx, (IH Ha); reflexivity.
Qed.

Lemma forallb_rev (p : N -> bool) (l : jsstring) :
  forallb p (rev l) = forallb p l.
Proof.
  induction l as [|x l IH]; simpl; [reflexivity|].
  rewrite forallb_app, IH; simpl.
  rewrite andb_true_r, andb_comm; reflexivity.
Qed.

(** The base name of [pre ++ name], for a plain [name] that follows a slash
    or starts the path, is [name]. *)
Lemma basename_suffix (pre name : jsstring) :
  plain name = true ->
  (pre = [] \/ exists q, pre = q ++ [c_slash]) ->
  basename (pre ++ name) = name.
Proof.
  unfold plain; rewrite !andb_true_iff.
  intros [[[Ht Hs] _] _] Hpre. unfold basename.
  rewrite rev_app_distr.
  assert (Hrs : forallb (fun c => negb (c =? c_slash)) (rev name) = true)
    by (rewrite forallb_rev; exact Hs).
  assert (E1 : span (fun c => c =? c_slash) (rev name ++ rev pre)
               = ([], rev name ++ rev pre)).
  { destruct (rev name) as [|c r] eqn:Er.
    - apply (f_equal (@rev N)) in Er; rewrite rev_involutive in Er.
      rewrite Er in Ht; discriminate.
    - simpl in Hrs |- *. apply andb_true_iff in Hrs as [Hc _].
      apply negb_true_iff in Hc; rewrite Hc; reflexivity. }
  rewrite E1; simpl.
  rewrite span_all; [simpl; apply rev_involutive | exact Hrs |].
  destruct Hpre as [-> | [q ->]]; [left; reflexivity|].
  right; rewrite rev_app_distr; simpl.
  exists c_slash, (rev q); split; reflexivity.
Qed.

Lemma last_not_slash (a name : jsstring) :
  plain name = true -> has_trailing_slash (a ++ name) = false.
Proof.
  unfold plain; rewrite !andb_true_iff.
  intros [[[Ht Hs] _] _]. unfold has_trailing_slash.
  rewrite rev_app_distr.
  destruct (rev name) as [|c r] eqn:Er.
  - apply (f_equal (@rev N)) in Er; rewrite rev_involutive in Er.
    rewrite Er in Ht; discriminate.
  - simpl. rewrite <- forallb_rev, Er in Hs; simpl in Hs.
    apply andb_true_iff in Hs as [Hc _].
    apply negb_true_iff in Hc; exact Hc.
Qed.

Lemma normalize_keeps_last (p name : jsstring) (segs : list jsstring) :
  plain name = true ->
  split_slash p = segs ++ [name] ->
  has_trailing_slash p = false ->
  basename (normalize p) = name.
Proof.
  intros Hn Hsplit Htrail.
  assert (Hp : p <> []).
  { intros ->. destruct segs as [|s [|s' segs]]; try discriminate.
    injection Hsplit as <-; discriminate. }
  assert (E : normalize p =
              (if is_absolute p then [c_slash] else [])
                ++ join_slash (rev (normalize_segments (negb (is_absolute p))
                                                       [] (split_slash p)))).
  { unfold normalize. destruct p as [|c p']; [contradiction|].
    rewrite Hsplit, normalize_segments_app,
      (normalize_segments_plain _ _ _ Hn), Htrail, app_nil_r.
    cbn [rev].
    destruct (join_slash_snoc
                (rev (normalize_segments (negb (is_absolute (c :: p'))) []
                                         segs)) name) as [pre [E _]].
    rewrite E.
    destruct (pre ++ name) as [|y ys] eqn:Ey; [|reflexivity].
    unfold plain in Hn; rewrite !andb_true_iff in Hn.
    destruct Hn as [[[Ht _] _] _]. destruct name; [discriminate|].
    destruct pre; discriminate. }
  rewrite E, Hsplit, normalize_segments_app,
    (normalize_segments_plain _ _ _ Hn).
  cbn [rev].
  destruct (join_slash_snoc
              (rev (normalize_segments (negb (is_absolute p)) [] segs)) name)
    as [pre [E' Hpre]].
  rewrite E', app_assoc.
  apply basename_suffix; [exact Hn|].
  destruct (is_absolute p); simpl.
  - right; destruct Hpre as [-> | [q ->]];
      [exists []; reflexivity | exists (c_slash :: q); reflexivity].
  - exact Hpre.
Qed.

(** Whatever the directory, joining a plain name to it and taking the base
    name gives the name back. *)
Lemma basename_join (dir name : jsstring) :
  plain name = true -> basename (join dir name) = name.
Proof.
  intros Hn.
  assert (Hs : forallb (fun c => negb (c =? c_slash)) name = true).
  { unfold plain in Hn; rewrite !andb_true_iff in Hn; tauto. }
  assert (Hne : name <> []).
  { intros ->; discriminate. }
  unfold join. destruct dir as [|d dir]; destruct name as [|n name];
    try contradiction.
  - apply (normalize_keeps_last (n :: name) (n :: name) []); auto.
    + apply split_slash_segment; exact Hs.
    + apply (last_not_slash [] (n :: name) Hn).
  - apply (normalize_keeps_last _ (n :: name) (split_slash (d :: dir))); auto.
    + apply split_slash_snoc; exact Hs.
    + change ((d :: dir) ++ c_slash :: n :: name)
        with ((d :: dir) ++ [c_slash] ++ (n :: name)).
      rewrite app_assoc; apply last_not_slash; exact Hn.
Qed.

Lemma Path_split_last (dir name : jsstring) :
  forallb (fun c => negb (c =? c_slash)) name = true ->
  last (split_slash (dir ++ c_slash :: name)) [] = name.
Proof.
  intros Hn. rewrite (split_slash_snoc dir name Hn). apply last_last.
Qed.

End PathFacts.

(** ** The log of a computation *)

Module LogFacts.

Import World Downloader Expected.
Local Open Scope js_scope.

Section Emits.

Context {A B : Type} (P : event -> Prop).

Lemma emits_ret (a : A) : emits P (ret a).
Proof. intros w; exists []; rewrite app_nil_r; split; auto. Qed.

Lemma emits_throw (e : error) : emits P (@throw A e).
Proof. intros w; exists []; rewrite app_nil_r; split; auto. Qed.

Lemma emits_lift (r : result A) : emits P (lift r).
Proof. intros w; exists []; rewrite app_nil_r; split; auto. Qed.

Lemma emits_bind (m : M A) (k : A -> M B) :
  emits P m -> (forall a, emits P (k a)) -> emits P (bind m k).
Proof.
  intros Hm Hk w. unfold bind.
  destruct (Hm w) as [l1 [E1 F1]].
  destruct (m w) as [[a|e] w1]; simpl in E1.
  - destruct (Hk a w1) as [l2 [E2 F2]].
    exists (l1 ++ l2); rewrite E2, E1, app_assoc; split; auto.
    apply Forall_app; auto.
  - exists l1; auto.
Qed.

Lemma emits_try_catch (m : M A) (h : error -> M A) :
  emits P m -> (forall e, emits P (h e)) -> emits P (try_catch m h).
Proof.
  intros Hm Hh w. unfold try_catch.
  destruct (Hm w) as [l1 [E1 F1]].
  destruct (m w) as [[a|e] w1]; simpl in E1.
  - exists l1; auto.
  - destruct (Hh e w1) as [l2 [E2 F2]].
    exists (l1 ++ l2); rewrite E2, E1, app_assoc; split; auto.
    apply Forall_app; auto.
Qed.

End Emits.

Lemma emits_check (P : event -> Prop) (o : option error) : emits P (check o).
Proof. destruct o; [apply emits_throw | apply emits_ret]. Qed.

Lemma emits_get (P : event -> Prop) : emits P get.
Proof. intros w; exists []; rewrite app_nil_r; split; auto. Qed.

Lemma emits_modify (P : event -> Prop) (f : world -> world) :
  (forall w, trace (f w) = trace w) -> emits P (modify f).
Proof.
  intros Hf w; exists []; simpl; rewrite Hf, app_nil_r; split; auto.
Qed.

Lemma emits_emit (P : event -> Prop) (e : event) : P e -> emits P (emit e).
Proof. intros He w; exists [e]; simpl; split; auto. Qed.

Lemma emits_weaken {A} (P Q : event -> Prop) (m : M A) :
  (forall e, P e -> Q e) -> emits P m -> emits Q m.
Proof.
  intros HPQ Hm w. destruct (Hm w) as [l [E F]].
  exists l; split; [exact E|].
  eapply Forall_impl; [exact HPQ | exact F].
Qed.

(** One structural step of a proof that a program stays within [P]. *)
Ltac emits_step :=
  first
    [ assumption
    | match goal with
      | H : forall _, _ |- _ => solve [apply H]
      end
    | apply emits_ret | apply emits_throw | apply emits_lift
    | apply emits_check | apply emits_get
    | apply emits_emit; simpl; now auto
    | apply emits_modify; intros []; reflexivity
    | apply emits_bind; [|intros]
    | apply emits_try_catch; [|intros]
    | match goal with
      | |- emits _ (match ?x with _ => _ end) => destruct x
      end ].

Ltac emits_tac := repeat emits_step.

Section Program.

Variable E : env.

Lemma emits_click_candidates (pg : page) (sels : list selector) :
  emits engine_event (click_candidates pg sels).
Proof. induction sels as [|s sels IH]; simpl; emits_tac. Qed.

Lemma emits_query_and_click (pg : page) (sels : list selector) :
  emits engine_event (query_and_click pg sels).
Proof. induction sels as [|s sels IH]; simpl; emits_tac. Qed.

Lemma emits_clickImmediateDownload (pg : page) :
  emits engine_event (clickImmediateDownload pg).
Proof.
  unfold clickImmediateDownload, search_and_click, resolve_signal,
    popup_path, waitForPageSettled.
  pose proof (emits_click_candidates pg candidates).
  pose proof (emits_query_and_click pg last_resort_selectors).
  emits_tac.
Qed.

Lemma emits_retry (ms : nat) (attempts : list nat) :
  emits engine_event (retry E ms attempts).
Proof.
  induction attempts as [|i rest IH]; cbn [retry]; [emits_tac|].
  pose proof (emits_clickImmediateDownload (attempt_page E i)).
  unfold waitForPageSettled. emits_tac.
Qed.

Lemma emits_login (btn : selector) (c : context) (u p : jsstring) :
  emits body_event (login E btn c u p).
Proof.
  unfold login, click_guarded, waitForPageSettled. emits_tac.
Qed.

Lemma emits_rmSync (P : event -> Prop) (dir : jsstring) :
  P (EvRm dir) -> emits P (rmSync E dir).
Proof. intros HP. unfold rmSync. emits_tac. Qed.

Lemma emits_materialize (tmpDir : jsstring) (s : signal) :
  emits body_event (materialize E tmpDir s).
Proof.
  unfold materialize, response_filename, write_file. emits_tac.
Qed.

Lemma emits_request_body (u tmpDir : jsstring) (c : context)
      (usr pwd : jsstring) :
  emits body_event (request_body E u tmpDir c usr pwd).
Proof.
  unfold request_body, loginRegisterBtn, waitForPageSettled.
  pose proof (emits_login).
  pose proof (fun ms l =>
                emits_weaken engine_event body_event (retry E ms l)
                  (fun e H => match e return engine_event e -> body_event e
                              with
                              | EvSettle _ | EvWait _ | EvClick _ _
                              | EvEvaluateClick _ | EvPopupClick =>
                                  fun _ => I
                              | _ => fun F => match F with end
                              end H)
                  (emits_retry ms l)) as Hretry.
  pose proof emits_materialize.
  emits_tac; auto.
Qed.

Lemma emits_getSharedBrowser (headless : bool) (slowMo : nat) :
  emits (setup_event headless slowMo) (getSharedBrowser E headless slowMo).
Proof. unfold getSharedBrowser. emits_tac. Qed.

Lemma emits_browser_newContext (headless : bool) (slowMo : nat) (b : browser) :
  emits (setup_event headless slowMo) (browser_newContext E b).
Proof. unfold browser_newContext, on_disconnected. emits_tac. Qed.

Lemma emits_close_context (P : event -> Prop) (c : context) :
  P (EvCloseContext c) -> emits P (close_context E c).
Proof. intros HP. unfold close_context. emits_tac. Qed.

Lemma close_context_ok (c : context) (w : world) :
  fst (close_context E c w) = Ok tt.
Proof. unfold close_context, bind, emit, modify; simpl. destruct (close E); reflexivity. Qed.

Lemma close_context_trace (c : context) (w : world) :
  trace (snd (close_context E c w)) = trace w ++ [EvCloseContext c].
Proof.
  unfold close_context, bind, emit, modify; simpl.
  destruct (close E); reflexivity.
Qed.

Lemma close_context_closes (c : context) (w : world) :
  close E = None -> ~ In c (open_contexts (snd (close_context E c w))).
Proof.
  intros Hc. unfold close_context, bind, emit, modify; simpl.
  rewrite Hc; simpl. rewrite filter_In, Nat.eqb_refl.
  intros [_ H]; discriminate.
Qed.

(** A request either fails before its page exists, having done nothing but
    set up, or reaches the [try] with the page of a context [c] just
    created, and then is the [try] with its [finally]. *)
Lemma request_shape (templateUrl : jsstring) (o : options) (w : world) :
  let h := headless_flag o (PLAYWRIGHT_HEADLESS E) in
  let r := downloadAipptTemplate E templateUrl o w in
  (exists e added,
      fst r = Throw e /\ trace (snd r) = trace w ++ added
      /\ Forall (setup_event h (slowMo_value o)) added)
  \/ (exists tmpDir c usr pwd w1 before,
         trace w1 = trace w ++ before ++ [EvNewPage c]
         /\ Forall (setup_event h (slowMo_value o)) before
         /\ mkdtempSync E = Ok tmpDir
         /\ r = finally (request_body E templateUrl tmpDir c usr pwd)
                        (close_context E c) w1).
Proof.
  intros h r. assert (Hr : r = downloadAipptTemplate E templateUrl o w)
    by reflexivity.
  clearbody r. unfold downloadAipptTemplate in Hr.
  destruct (negb (Regex.re_template_url templateUrl)).
  { left; subst r; eexists; exists []; simpl; rewrite app_nil_r; auto. }
  destruct (missing (AIPPT_USERNAME E) || missing (AIPPT_PASSWORD E)).
  { left; subst r; eexists; exists []; simpl; rewrite app_nil_r; auto. }
  unfold bind at 1, lift at 1 in Hr.
  destruct (mkdtempSync E) as [tmpDir|e] eqn:Hmk.
  2:{ left; subst r; exists e, []; simpl; rewrite app_nil_r; auto. }
  unfold bind at 1, emit at 1, modify at 1 in Hr.
  unfold bind at 1, modify at 1 in Hr.
  set (w0 := set_fs _ _ _) in Hr.
  assert (T0 : trace w0 = trace w ++ [EvMkdtemp tmpDir]) by reflexivity.
  clearbody w0.
  unfold bind at 1 in Hr. fold h in Hr.
  destruct (emits_getSharedBrowser h (slowMo_value o) w0) as [l1 [E1 F1]].
  destruct (getSharedBrowser E h (slowMo_value o) w0) as [[b|e] w1];
    simpl in E1.
  2:{ left; subst r; exists e, (EvMkdtemp tmpDir :: l1); simpl.
      rewrite E1, T0, <- app_assoc; simpl; repeat split; auto.
      constructor; simpl; auto. }
  unfold bind at 1, openContextWithRetry, bind at 1 in Hr.
  assert (Hctx : emits (setup_event h (slowMo_value o))
                   (try_catch (browser_newContext E b)
                      (fun _ => bind (getSharedBrowser E h (slowMo_value o))
                                     (fun b' => browser_newContext E b')))).
  { pose proof (emits_getSharedBrowser h (slowMo_value o)).
    pose proof (emits_browser_newContext h (slowMo_value o)).
    emits_tac. }
  destruct (Hctx w1) as [l2 [E2 F2]].
  destruct (try_catch _ _ w1) as [[c|e] w2]; simpl in E2.
  2:{ left; subst r; exists e, (EvMkdtemp tmpDir :: l1 ++ l2); simpl.
      rewrite E2, E1, T0, <- !app_assoc; simpl; repeat split; auto.
      constructor; simpl; auto. apply Forall_app; auto. }
  unfold bind at 1, check in Hr.
  destruct (newPage E) as [e|].
  { left; subst r; exists e, (EvMkdtemp tmpDir :: l1 ++ l2); simpl.
    rewrite E2, E1, T0, <- !app_assoc; simpl; repeat split; auto.
    constructor; simpl; auto. apply Forall_app; auto. }
  right. simpl in Hr.
  eexists tmpDir, c, _, _, _, (EvMkdtemp tmpDir :: l1 ++ l2).
  split; [|split; [|split; [reflexivity | exact Hr]]].
  - simpl. rewrite E2, E1, T0, <- !app_assoc; reflexivity.
  - constructor; simpl; auto. apply Forall_app; auto.
Qed.

(** The log of a [try] with its [finally]. *)
Lemma finally_trace (templateUrl tmpDir : jsstring) (c : context)
      (usr pwd : jsstring) (w1 : world) :
  exists during,
    trace (snd (finally (request_body E templateUrl tmpDir c usr pwd)
                        (close_context E c) w1))
    = trace w1 ++ during ++ [EvCloseContext c]
    /\ Forall body_event during.
Proof.
  unfold finally.
  destruct (emits_request_body templateUrl tmpDir c usr pwd w1)
    as [l [E1 F1]].
  destruct (request_body E templateUrl tmpDir c usr pwd w1) as [r w2];
    simpl in *.
  exists l; rewrite close_context_trace, E1, app_assoc; auto.
Qed.

End Program.

End LogFacts.

(** ** The acquisition request *)

Module Acquisition.

Import World Downloader Expected Fixtures LogFacts StringFacts.



(** C4.  A URL that fails the absolute http(s) pattern, or a missing site
    user name or password, makes the request fail with the configuration
    error at once: the world is left exactly as it was, so nothing was
    launched, created, navigated or written. *)
Theorem configuration_error_before_any_browser_work
        (E : env) (templateUrl : jsstring) (o : options) (w : world) :
  Regex.re_template_url templateUrl = false
  \/ missing (AIPPT_USERNAME E) = true
  \/ missing (AIPPT_PASSWORD E) = true ->
  downloadAipptTemplate E templateUrl o w
  = (Throw (Error (if Regex.re_template_url templateUrl
                   then "Missing AIPPT_USERNAME/AIPPT_PASSWORD"
                   else "Invalid template URL")), w).
Proof.
  intros H. unfold downloadAipptTemplate.
  destruct (Regex.re_template_url templateUrl); simpl; [|reflexivity].
  destruct H as [H | [-> | ->]]; [discriminate | reflexivity |].
  rewrite orb_true_r; reflexivity.
Qed.

Lemma configuration_error_witness :
  downloadAipptTemplate good (js "ftp://www.aippt.cn/t/1") defaults
                        (fresh NoFile)
  = (Throw (Error "Invalid template URL"), fresh NoFile).
Proof.
  apply (configuration_error_before_any_browser_work
           good (js "ftp://www.aippt.cn/t/1") defaults (fresh NoFile)).
  left; reflexivity.
Defined.

(** C6, as the specification states it, fails twice: when the page cannot
    be created the context just created stays open and is never closed, and
    when the download never starts the temporary directory is still there
    after the request, nothing having tried to remove it. *)
Lemma cleanup_is_not_on_every_path :
  (let w := snd (downloadAipptTemplate page_never_opens template defaults
                                       (fresh NoFile)) in
   In (EvNewContext 0 false) (trace w)
   /\ ~ In (EvCloseContext 0) (trace w)
   /\ In 0 (open_contexts w))
  /\ (let r := downloadAipptTemplate download_never_starts template defaults
                                     (fresh NoFile) in
      fst r = Throw (Error "下载未开始")
      /\ In tmp (dirs (snd r))
      /\ ~ In (EvRm tmp) (trace (snd r))).
Proof.
  vm_compute. repeat split; auto; intuition discriminate.
Qed.

(** C6, amended.  Once the page of the request exists, every exit path ends
    with the close of its context: the close is the last thing the request
    does, it never throws, and when it goes through the context is no longer
    open.  No request closes a browser.  (Removing the temporary directory
    is no part of this final step.) *)
Theorem context_closed_once_page_exists
        (E : env) (templateUrl : jsstring) (o : options) (w : world) :
  let w' := snd (downloadAipptTemplate E templateUrl o w) in
  exists added,
    trace w' = trace w ++ added
    /\ (forall b, ~ In (EvCloseBrowser b) added)
    /\ (forall c, In (EvNewPage c) added ->
          (exists before, added = before ++ [EvCloseContext c])
          /\ (close E = None -> ~ In c (open_contexts w')))
    /\ (forall c w1, fst (close_context E c w1) = Ok tt).
Proof.
  intros w'; subst w'.
  destruct (request_shape E templateUrl o w)
    as [[e [added [_ [T F]]]]
       | [tmpDir [c [usr [pwd [w1 [before [T [F [_ R]]]]]]]]]].
  - exists added; split; [exact T|]. rewrite Forall_forall in F.
    repeat split.
    + intros b Hin; exact (F _ Hin).
    + exfalso; exact (F _ H).
    + exfalso; exact (F _ H).
    + intros; apply close_context_ok.
  - rewrite R.
    destruct (finally_trace E templateUrl tmpDir c usr pwd w1)
      as [during [T1 F1]].
    rewrite Forall_forall in F, F1.
    exists (before ++ [EvNewPage c] ++ during ++ [EvCloseContext c]).
    split; [rewrite T1, T, <- !app_assoc; reflexivity|].
    assert (Hc : forall c', In (EvNewPage c')
                   (before ++ [EvNewPage c] ++ during ++ [EvCloseContext c])
                 -> c' = c).
    { intros c' Hin. rewrite !in_app_iff in Hin; simpl in Hin.
      destruct Hin as [H | [[H | []] | [H | [H | []]]]].
      - exfalso; exact (F _ H).
      - injection H; auto.
      - exfalso; exact (F1 _ H).
      - discriminate H. }
    repeat split.
    + intros b Hin. rewrite !in_app_iff in Hin; simpl in Hin.
      destruct Hin as [H | [[H | []] | [H | [H | []]]]];
        [exact (F _ H) | discriminate H | exact (F1 _ H) | discriminate H].
    + rewrite (Hc _ H).
      exists (before ++ [EvNewPage c] ++ during).
      rewrite <- !app_assoc; reflexivity.
    + intros Hclose. rewrite (Hc _ H). unfold finally.
      destruct (request_body E templateUrl tmpDir c usr pwd w1) as [r w2].
      simpl. apply close_context_closes; exact Hclose.
    + intros; apply close_context_ok.
Qed.

(** C8, as the specification states it, fails for a corrupt snapshot: in
    an environment where the request succeeds when the file is missing, it
    fails with the error of reading the file when the file is corrupt. *)
Lemma corrupt_snapshot_fails_the_request :
  fst (downloadAipptTemplate good template defaults (fresh Corrupt))
  = Throw (Rejection "Error reading storage state")
  /\ exists a w,
       downloadAipptTemplate good template defaults (fresh NoFile) = (Ok a, w).
Proof.
  split; [vm_compute; reflexivity|].
  eexists; eexists; vm_compute; reflexivity.
Qed.

Ltac run_open_context :=
  unfold openContextWithRetry, browser_newContext, getSharedBrowser,
    on_disconnected, isConnected, existsSync_stateFile;
  run_monad;
  repeat destruct_inner.

Lemma open_context_without_snapshot (E : env) (b : browser) (h : bool)
      (s : nat) (w : world) :
  state_file w = NoFile ->
  exists added,
    trace (snd (openContextWithRetry E b h s w)) = trace w ++ added
    /\ contexts_seeded false added.
Proof.
  destruct w as [sb conn ln cn oc sf d f t]; simpl; intros ->.
  run_open_context;
    rewrite <- ?app_assoc; simpl; (eexists; split; [reflexivity|]);
    intros b' s' Hin; simpl in Hin; intuition congruence.
Qed.

Lemma open_context_with_snapshot (E : env) (b : browser) (h : bool)
      (s : nat) (w : world) (c : context) :
  state_file w = Saved c ->
  exists added,
    trace (snd (openContextWithRetry E b h s w)) = trace w ++ added
    /\ contexts_seeded true added.
Proof.
  destruct w as [sb conn ln cn oc sf d f t]; simpl; intros ->.
  run_open_context;
    rewrite <- ?app_assoc; simpl; (eexists; split; [reflexivity|]);
    intros b' s' Hin; simpl in Hin; intuition congruence.
Qed.

Lemma open_context_first_try (E : env) (b : browser) (h : bool) (s : nat)
      (w : world) :
  state_file w <> Corrupt ->
  newContext E (contexts w) = ContextCreated ->
  newPage E = None ->
  fst (openContextWithRetry E b h s w) = Ok (contexts w).
Proof.
  destruct w as [sb conn ln cn oc sf d f t]; simpl; intros Hsf Hn Hp.
  unfold openContextWithRetry, browser_newContext.
  destruct sf; [| |contradiction]; run_monad; rewrite Hn; simpl;
    rewrite Hp; reflexivity.
Qed.

Lemma open_context_corrupt (E : env) (b : browser) (h : bool) (s : nat)
      (w : world) :
  state_file w = Corrupt ->
  exists e w', openContextWithRetry E b h s w = (Throw e, w').
Proof.
  destruct w as [sb conn ln cn oc sf d f t]; simpl; intros ->.
  run_open_context; eexists; eexists; reflexivity.
Qed.

Lemma getSharedBrowser_state_file (E : env) (h : bool) (s : nat) (w : world) :
  state_file (snd (getSharedBrowser E h s w)) = state_file w.
Proof.
  destruct w as [sb conn ln cn oc sf d f t].
  unfold getSharedBrowser, isConnected. run_monad.
  repeat destruct_inner; reflexivity.
Qed.

Lemma request_with_corrupt_snapshot (E : env) (templateUrl : jsstring)
      (o : options) (w : world) :
  state_file w = Corrupt ->
  exists e, fst (downloadAipptTemplate E templateUrl o w) = Throw e.
Proof.
  intros Hsf. unfold downloadAipptTemplate.
  destruct (negb _); [eexists; reflexivity|].
  destruct (_ || _); [eexists; reflexivity|].
  unfold bind at 1, lift at 1.
  destruct (mkdtempSync E) as [tmpDir|e]; [|eexists; reflexivity].
  unfold bind at 1, emit at 1, modify at 1.
  unfold bind at 1, modify at 1.
  set (w0 := set_fs _ _ _).
  assert (H0 : state_file w0 = Corrupt) by exact Hsf.
  clearbody w0. unfold bind at 1.
  pose proof (getSharedBrowser_state_file E
                (headless_flag o (PLAYWRIGHT_HEADLESS E)) (slowMo_value o) w0)
    as H1.
  destruct (getSharedBrowser E _ _ w0) as [[b|e] w1]; simpl in H1;
    [|eexists; reflexivity].
  rewrite H0 in H1. unfold bind at 1.
  destruct (open_context_corrupt E b
              (headless_flag o (PLAYWRIGHT_HEADLESS E)) (slowMo_value o) w1 H1)
    as [e [w2 ->]].
  eexists; reflexivity.
Qed.

(** C8, amended.  A missing snapshot file degrades to a fresh,
    unauthenticated context: every context creation of the request is asked
    without stored state, and goes through when the browser grants it.  A
    snapshot file that exists is handed to the context creation; when it is
    corrupt the creation fails, also on its one retry, and the request
    fails. *)
Theorem snapshot_at_context_creation
        (E : env) (b : browser) (h : bool) (s : nat)
        (templateUrl : jsstring) (o : options) (w : world) :
  match state_file w with
  | NoFile =>
      (exists added,
          trace (snd (openContextWithRetry E b h s w)) = trace w ++ added
          /\ contexts_seeded false added)
      /\ (newContext E (contexts w) = ContextCreated -> newPage E = None ->
          fst (openContextWithRetry E b h s w) = Ok (contexts w))
  | Saved _ =>
      exists added,
        trace (snd (openContextWithRetry E b h s w)) = trace w ++ added
        /\ contexts_seeded true added
  | Corrupt =>
      (exists e, fst (openContextWithRetry E b h s w) = Throw e)
      /\ (exists e, fst (downloadAipptTemplate E templateUrl o w) = Throw e)
  end.
Proof.
  destruct (state_file w) as [|c|] eqn:Hsf.
  - split; [apply open_context_without_snapshot; exact Hsf|].
    intros Hn Hp; apply open_context_first_try; auto.
    rewrite Hsf; discriminate.
  - apply (open_context_with_snapshot E b h s w c Hsf).
  - split.
    + destruct (open_context_corrupt E b h s w Hsf) as [e [w' ->]].
      exists e; reflexivity.
    + apply request_with_corrupt_snapshot; exact Hsf.
Qed.

Lemma snapshot_at_context_creation_witness :
  (exists added,
      trace (snd (openContextWithRetry good 0 true 0 (fresh NoFile)))
      = trace (fresh NoFile) ++ added
      /\ contexts_seeded false added)
  /\ fst (openContextWithRetry good 0 true 0 (fresh NoFile)) = Ok 0.
Proof.
  destruct (snapshot_at_context_creation good 0 true 0 template defaults
                                         (fresh NoFile)) as [H1 H2].
  split; [exact H1 | apply H2; reflexivity].
Defined.

(** C9, as the specification states it, fails when the removal meets an
    error other than a missing directory: the release action of an artifact
    just returned throws it. *)
Lemma release_throws_removal_error :
  exists a w,
    downloadAipptTemplate removal_denied template defaults (fresh NoFile)
    = (Ok a, w)
    /\ fst (cleanup a w) = Throw (Rejection "EACCES").
Proof. eexists; eexists; split; vm_compute; reflexivity. Qed.

Lemma materialize_cleanup (E : env) (tmpDir : jsstring) (sig : signal)
      (w w1 : world) (a : artifact) :
  materialize E tmpDir sig w = (Ok a, w1) -> cleanup a = rmSync E tmpDir.
Proof.
  unfold materialize, response_filename, write_file.
  destruct sig as [d|r]; run_monad;
    repeat destruct_inner;
    intros [= <- _]; reflexivity || discriminate.
Qed.

Lemma existsb_str_eqb (dir : jsstring) (l : list jsstring) :
  existsb (str_eqb dir) l = true <-> In dir l.
Proof.
  rewrite existsb_exists. split.
  - intros [x [Hin Hx]]. apply str_eqb_eq in Hx; subst; exact Hin.
  - intros Hin; exists dir; split; [exact Hin | apply str_eqb_refl].
Qed.

(** With [force], removing a directory that is not there does nothing. *)
Lemma rmSync_absent (E : env) (dir : jsstring) (w : world) :
  ~ In dir (dirs w) ->
  rmSync E dir w = (Ok tt, set_trace (trace w ++ [EvRm dir]) w).
Proof.
  intros Hnot. unfold rmSync, bind, emit, modify, get; simpl.
  destruct (existsb (str_eqb dir) (dirs w)) eqn:Hex; [|reflexivity].
  apply existsb_str_eqb in Hex; contradiction.
Qed.

Lemma rmSync_present (E : env) (dir : jsstring) (w : world) :
  In dir (dirs w) ->
  match rm_error E dir with
  | None => fst (rmSync E dir w) = Ok tt
            /\ ~ In dir (dirs (snd (rmSync E dir w)))
  | Some e => rmSync E dir w = (Throw e, set_trace (trace w ++ [EvRm dir]) w)
  end.
Proof.
  intros Hin. unfold rmSync, bind, emit, modify, get; simpl.
  apply existsb_str_eqb in Hin; rewrite Hin.
  destruct (rm_error E dir); [reflexivity|]. simpl. split; [reflexivity|].
  rewrite filter_In, str_eqb_refl. intros [_ H]; discriminate.
Qed.

Lemma rmSync_removes (E : env) (dir : jsstring) (w : world) :
  rm_error E dir = None ->
  fst (rmSync E dir w) = Ok tt /\ ~ In dir (dirs (snd (rmSync E dir w))).
Proof.
  intros Hrm.
  destruct (in_dec (list_eq_dec N.eq_dec) dir (dirs w)) as [Hin|Hnot].
  - pose proof (rmSync_present E dir w Hin) as H.
    rewrite Hrm in H; exact H.
  - rewrite (rmSync_absent E dir w Hnot); simpl; auto.
Qed.

Lemma bind_ok {A B : Type} (m : M A) (k : A -> M B) (w w' : world) (b : B) :
  bind m k w = (Ok b, w') ->
  exists a w1, m w = (Ok a, w1) /\ k a w1 = (Ok b, w').
Proof.
  unfold bind. destruct (m w) as [[a|e] w1]; intros H;
    [exists a, w1; auto | discriminate].
Qed.

(** An artifact the body of a request returns was made by [materialize]
    for the temporary directory of the request. *)
Lemma request_body_cleanup (E : env) (u tmpDir : jsstring) (c : context)
      (usr pwd : jsstring) (w w' : world) (a : artifact) :
  request_body E u tmpDir c usr pwd w = (Ok a, w') ->
  cleanup a = rmSync E tmpDir.
Proof.
  unfold request_body. intros H.
  repeat (apply bind_ok in H; destruct H as (? & ? & _ & H); cbv beta in H).
  match type of H with
  | match ?d with _ => _ end _ = _ => destruct d as [sig|]
  end; [|discriminate].
  eapply materialize_cleanup; exact H.
Qed.

(** C9, amended.  The release action of the artifact a request returns is
    the forced recursive removal of the temporary directory of that request.
    When the removal meets no error, calling it twice never raises and
    leaves no temporary directory, the second call changing nothing in the
    file system.  An error of the removal itself, other than the directory
    being absent, is thrown by the release action, not swallowed. *)
Theorem release_twice
        (E : env) (templateUrl : jsstring) (o : options) (a : artifact)
        (w w1 w2 : world) :
  downloadAipptTemplate E templateUrl o w = (Ok a, w1) ->
  exists tmpDir,
    mkdtempSync E = Ok tmpDir
    /\ cleanup a = rmSync E tmpDir
    /\ match rm_error E tmpDir with
       | None =>
           let first := cleanup a w2 in
           let second := cleanup a (snd first) in
           fst first = Ok tt /\ fst second = Ok tt
           /\ ~ In tmpDir (dirs (snd first))
           /\ dirs (snd second) = dirs (snd first)
           /\ files (snd second) = files (snd first)
       | Some e =>
           if existsb (str_eqb tmpDir) (dirs w2)
           then fst (cleanup a w2) = Throw e
           else fst (cleanup a w2) = Ok tt
       end.
Proof.
  intros Hrun.
  destruct (request_shape E templateUrl o w)
    as [[e [added [Hfail _]]]
       | [tmpDir [c [usr [pwd [w0 [before [_ [_ [Hmk R]]]]]]]]]].
  { rewrite Hrun in Hfail; discriminate. }
  exists tmpDir. split; [exact Hmk|].
  assert (Hc : cleanup a = rmSync E tmpDir).
  { rewrite Hrun in R. unfold finally in R.
    destruct (request_body E templateUrl tmpDir c usr pwd w0) as [r' w'] eqn:Hb.
    injection R as <- _.
    exact (request_body_cleanup E templateUrl tmpDir c usr pwd w0 w' a Hb). }
  split; [exact Hc|]. rewrite Hc.
  destruct (rm_error E tmpDir) as [e|] eqn:Hrm.
  - destruct (existsb (str_eqb tmpDir) (dirs w2)) eqn:Hex.
    + apply existsb_str_eqb in Hex.
      pose proof (rmSync_present E tmpDir w2 Hex) as H.
      rewrite Hrm in H; rewrite H; reflexivity.
    + rewrite rmSync_absent; [reflexivity|].
      intros Hin; apply existsb_str_eqb in Hin; congruence.
  - destruct (rmSync_removes E tmpDir w2 Hrm) as [H1 H2].
    cbv zeta. rewrite (rmSync_absent E tmpDir _ H2); simpl.
    repeat split; auto.
Qed.

Lemma release_twice_witness :
  exists a w1,
    downloadAipptTemplate good template defaults (fresh NoFile) = (Ok a, w1)
    /\ fst (cleanup a w1) = Ok tt
    /\ fst (cleanup a (snd (cleanup a w1))) = Ok tt
    /\ ~ In tmp (dirs (snd (cleanup a w1))).
Proof.
  assert (Hm : exists a w1,
             downloadAipptTemplate good template defaults (fresh NoFile)
             = (Ok a, w1))
    by (eexists; eexists; vm_compute; reflexivity).
  destruct Hm as [a [w1 Hm]]. exists a, w1. split; [exact Hm|].
  destruct (release_twice good template defaults a (fresh NoFile) w1 w1 Hm)
    as [tmpDir [Hmk [_ H]]].
  injection Hmk as <-.
  change (rm_error good tmp) with (@None error) in H.
  destruct H as [H1 [H2 [H3 _]]]. auto.
Defined.

(** The whole request on the fixtures of the specification: a network
    response alone yields the file named by its header, and a control that
    mounts only for the third attempt is still found. *)
Example request_with_network_response :
  exists a w,
    downloadAipptTemplate good template defaults (fresh NoFile) = (Ok a, w)
    /\ filename a = js "x.pptx"
    /\ filePath a = js "/tmp/aippt-Ab12Cd/x.pptx".
Proof. eexists; eexists; vm_compute; repeat split; reflexivity. Qed.

Example request_succeeds_on_third_attempt :
  exists a w,
    downloadAipptTemplate
      (environment None blank
         (fun i => match i with 2 => network_only | _ => blank end) None)
      template defaults (fresh NoFile) = (Ok a, w)
    /\ filename a = js "x.pptx".
Proof. eexists; eexists; vm_compute; repeat split; reflexivity. Qed.

(** C7, as the specification states it, fails on its second part: with a
    dialog that shows no submit control and a fallback click that times out,
    the login goes through without an error, and so does the request. *)
Lemma login_without_submit_does_not_fail :
  let E := environment None login_without_submit (fun _ => network_only)
                       None in
  count (login_page E) SelSubmitSpan = Ok 0
  /\ click (login_page E) SelSubmit false = Some timeout
  /\ fst (login E SelLoginRegister 0 (js "user") (js "secret")
                (fresh NoFile)) = Ok tt
  /\ exists a w,
       downloadAipptTemplate E template defaults (fresh NoFile) = (Ok a, w).
Proof.
  repeat split; try (vm_compute; reflexivity).
  eexists; eexists; vm_compute; reflexivity.
Qed.

(** With a dialog on which the query for the switch to password login
    rejects, the login fails although both fields could be filled. *)
Example login_query_rejects_run :
  let E := environment None login_query_rejects (fun _ => network_only)
                       None in
  fill (login_page E) SelAccount = None
  /\ fill (login_page E) SelPassword = None
  /\ fst (login E SelLoginRegister 0 (js "user") (js "secret")
                (fresh NoFile)) = Throw timeout.
Proof. repeat split; reflexivity. Qed.

(** C7, amended.  Every click of the login protocol is best-effort: whatever
    the clicks do, and whether or not a submit control is found, the
    protocol fails exactly when one of its four unguarded steps rejects, the
    query for the switch to password login, the fill of the account field,
    the fill of the password field, the query for the label of the submit
    button, and then with the error of the first of them to reject. *)
Theorem login_fails_only_on_unguarded_steps
        (E : env) (btn : selector) (c : context) (u p : jsstring)
        (w : world) :
  fst (login E btn c u p w)
  = match login_rejection (login_page E) with
    | Some e => Throw e
    | None => Ok tt
    end.
Proof.
  unfold login, login_rejection, click_guarded, waitForPageSettled.
  run_monad.
  destruct (count (login_page E) SelSwitchPassword) as [n|e];
    [|repeat destruct_inner; reflexivity].
  simpl.
  destruct (count (login_page E) SelSubmitSpan) as [m|e'];
    repeat destruct_inner; reflexivity.
Qed.

Lemma login_fails_only_on_unguarded_steps_witness :
  fst (login (environment None login_without_submit (fun _ => network_only)
                          None)
             SelLoginRegister 0 (js "user") (js "secret") (fresh NoFile))
  = Ok tt.
Proof.
  exact (login_fails_only_on_unguarded_steps
           (environment None login_without_submit (fun _ => network_only) None)
           SelLoginRegister 0 (js "user") (js "secret") (fresh NoFile)).
Defined.

End Acquisition.

(** ** The download trigger engine and the file name *)

Module Engine.

Import World Downloader Expected Fixtures StringFacts PathFacts.

Lemma set_trace_twice (t t' : list event) (w : world) :
  set_trace t (set_trace t' w) = set_trace t w.
Proof. reflexivity. Qed.









(** The attempts on that page, spelled out. *)
Example several_match_run :
  search_and_click several_match (fresh NoFile)
  = (Ok tt,
     set_trace [EvClick SelTracked false; EvClick SelTracked true;
                EvClick SelButtonLabelled false]
               (fresh NoFile)).
Proof. reflexivity. Qed.

(** The fixture of the specification: when the third-priority selector is
    the only one to match, and takes the click, it is the one element the
    engine clicks, and the search does not fail. *)
Lemma third_priority_only (pg : page) (w : world) (n : nat) :
  (forall s, count pg s = match s with
                          | SelButtonLabelled => Ok (S n)
                          | _ => Ok 0
                          end) ->
  click pg SelButtonLabelled false = None ->
  search_and_click pg w
  = (Ok tt, set_trace (trace w ++ [EvClick SelButtonLabelled false]) w).
Proof.
  intros Hcount Hclick.
  unfold search_and_click, candidates, bind, lift; simpl.
  rewrite !Hcount; simpl. rewrite Hclick. reflexivity.
Qed.

(** C1, as the specification states it, fails when the popup is the only
    signal to fire and no download starts in it: one of the three armed
    listeners has fired, the click has been made, and the engine resolves
    nothing. *)
Lemma popup_alone_resolves_nothing :
  fired popup_only
  /\ fst (search_and_click popup_only (fresh NoFile)) = Ok tt
  /\ fst (resolve_signal popup_only (fresh NoFile)) = Ok None
  /\ fst (clickImmediateDownload popup_only (fresh NoFile)) = Ok None.
Proof.
  repeat split; try (vm_compute; reflexivity).
  right; left; discriminate.
Qed.

Lemma resolve_signal_expected (pg : page) (w : world) :
  waitForTimeout pg = None ->
  (forall pop, popup_event pg = Some pop -> popup_download pop = None ->
               exists n, popup_count pop = Ok n) ->
  fst (resolve_signal pg w) = Ok (expected_signal pg).
Proof.
  intros Hwait Hcount.
  unfold resolve_signal, expected_signal, popup_signal, popup_path, bind,
    emit, modify, check, lift, ret.
  rewrite Hwait; simpl.
  destruct (download_event pg); [reflexivity|].
  destruct (popup_event pg) as [pop|]; [|reflexivity].
  destruct (popup_download pop) eqn:Hd; [reflexivity|].
  destruct (Hcount pop eq_refl Hd) as [n ->]; simpl.
  destruct n; simpl; [reflexivity|].
  destruct (popup_click_download pop); reflexivity.
Qed.

(** The resolution on every page: the error of the first unguarded step to
    reject, and otherwise the signal of highest priority. *)
Lemma resolve_signal_outcome (pg : page) (w : world) :
  fst (resolve_signal pg w)
  = match unguarded_rejection pg with
    | Some e => Throw e
    | None => Ok (expected_signal pg)
    end.
Proof.
  unfold resolve_signal, unguarded_rejection, expected_signal, popup_signal,
    popup_path, bind, emit, modify, check, lift, ret, throw.
  destruct (waitForTimeout pg) as [e|]; [reflexivity|]. simpl.
  destruct (download_event pg); [reflexivity|].
  destruct (popup_event pg) as [pop|]; [|reflexivity].
  destruct (popup_download pop); [reflexivity|].
  destruct (popup_count pop) as [[|n]|e]; simpl; try reflexivity.
  destruct (popup_click_download pop); reflexivity.
Qed.

(** With a popup whose query rejects, the engine call fails although a
    matching response was captured. *)
Example popup_query_rejects_run :
  responseListener popup_query_rejects = Some response_x
  /\ fst (resolve_signal popup_query_rejects (fresh NoFile)) = Throw timeout.
Proof. split; reflexivity. Qed.

(** The file name of a response that carries the header of the
    specification's fixture, whatever its URL and the directory. *)
Lemma network_response_named_x (E : env) (r : response) (tmpDir : jsstring)
      (bytes : list N) (w : world) :
  header (js "content-disposition") (headers r) = Some disposition_x ->
  body r = Ok bytes ->
  writeFileSync E (Path.join tmpDir (js "x.pptx")) = None ->
  is_file_response r = true
  /\ exists a w',
       materialize E tmpDir (IsResponse r) w = (Ok a, w')
       /\ filename a = js "x.pptx"
       /\ filePath a = Path.join tmpDir (js "x.pptx").
Proof.
  intros Hh Hb Hw.
  assert (Hd : disposition r = Some disposition_x)
    by (unfold disposition; rewrite Hh; reflexivity).
  split.
  - unfold is_file_response. rewrite Hd.
    assert (H : truthy disposition_x && Regex.re_attachment disposition_x
                = true) by (vm_compute; reflexivity).
    rewrite H; reflexivity.
  - unfold materialize, response_filename. rewrite Hd.
    assert (H : Regex.re_filename_exec disposition_x
                = Some (Regex.FilenameMatch None (Some (js "x.pptx"))))
      by (vm_compute; reflexivity).
    rewrite H. cbn [Regex.group1 Regex.group2 or_undef].
    assert (H' : decodeURIComponent (trim (js "x.pptx")) = Some (js "x.pptx"))
      by (vm_compute; reflexivity).
    rewrite H'.
    unfold bind, ret, lift, emit, modify, check, write_file.
    rewrite Hb, Hw. eexists; eexists; split; [reflexivity|].
    split; [|reflexivity].
    cbn [filename]. apply basename_join. vm_compute; reflexivity.
Qed.

(** C1, amended.  After the click the engine resolves at most one signal,
    in this priority: the native download event; failing that, the download
    a popup leads to (the one nested in it or, if none, the one that follows
    a click on a download control found in it); failing that, the first
    matching network response.  Two steps are not guarded, the wait after
    the click and, in a popup without a nested download, the query for a
    download control: when one of them rejects, the engine call fails with
    that error, whatever has fired.  Otherwise it resolves a signal exactly
    when one of the three exists: a popup in which no download starts is not
    a signal of its own.  In particular, when the wait goes through and only
    a network response carrying
    content-disposition: attachment; filename=QUOTE x.pptx QUOTE fires, that
    response is resolved and the artifact made from it is named x.pptx. *)
Theorem signal_priority (E : env) (pg : page) (w : world) :
  fst (resolve_signal pg w)
  = match unguarded_rejection pg with
    | Some e => Throw e
    | None => Ok (expected_signal pg)
    end
  /\ ((exists s, fst (resolve_signal pg w) = Ok (Some s)) <->
      unguarded_rejection pg = None
      /\ (download_event pg <> None \/ popup_signal pg <> None
          \/ responseListener pg <> None))
  /\ forall r tmpDir bytes w1,
       waitForTimeout pg = None ->
       download_event pg = None -> popup_event pg = None ->
       responses pg = [r] ->
       header (js "content-disposition") (headers r) = Some disposition_x ->
       body r = Ok bytes ->
       writeFileSync E (Path.join tmpDir (js "x.pptx")) = None ->
       fst (resolve_signal pg w) = Ok (Some (IsResponse r))
       /\ exists a w2,
            materialize E tmpDir (IsResponse r) w1 = (Ok a, w2)
            /\ filename a = js "x.pptx".
Proof.
  pose proof (resolve_signal_outcome pg w) as Hres.
  assert (Hsome : expected_signal pg <> None <->
                  download_event pg <> None \/ popup_signal pg <> None
                  \/ responseListener pg <> None).
  { unfold expected_signal.
    destruct (download_event pg) as [d|].
    { split; [intros _; left; discriminate | intros _; discriminate]. }
    destruct (popup_signal pg) as [d|].
    { split; [intros _; right; left; discriminate | intros _; discriminate]. }
    destruct (responseListener pg) as [r|]; simpl.
    { split; [intros _; right; right; discriminate | intros _; discriminate]. }
    split; [intros H; contradiction | intros [H | [H | H]]; contradiction]. }
  split; [exact Hres|]. split.
  - rewrite Hres. destruct (unguarded_rejection pg) as [e|].
    + split; [intros [s Hs]; discriminate | intros [Hn _]; discriminate].
    + split.
      * intros [s Hs]. split; [reflexivity|]. apply Hsome.
        injection Hs as Hs. rewrite Hs. discriminate.
      * intros [_ Hany]. apply Hsome in Hany.
        destruct (expected_signal pg) as [s|]; [|contradiction].
        exists s. reflexivity.
  - intros r tmpDir bytes w1 Hwait Hd Hp Hr Hh Hb Hw.
    destruct (network_response_named_x E r tmpDir bytes w1 Hh Hb Hw)
      as [Hfile [a [w2 [Hm [Hname _]]]]].
    split.
    + rewrite Hres.
      unfold unguarded_rejection, expected_signal, popup_signal,
        responseListener.
      rewrite Hwait, Hd, Hp, Hr; simpl. rewrite Hfile. reflexivity.
    + exists a, w2; auto.
Qed.

Lemma signal_priority_witness :
  fst (resolve_signal network_only (fresh NoFile))
  = Ok (Some (IsResponse response_x))
  /\ exists a w2,
       materialize good tmp (IsResponse response_x) (fresh NoFile) = (Ok a, w2)
       /\ filename a = js "x.pptx".
Proof.
  destruct (signal_priority good network_only (fresh NoFile)) as [_ [_ H]].
  apply (H response_x tmp [80; 75]%N (fresh NoFile)); reflexivity.
Defined.

(** C3 at the failing input.  On a header that carries the plain parameter
    before the extended one, the module takes the name of the plain
    parameter, found further left, while the derivation the specification
    describes (the extended pattern tried on the header first) gives
    the name of the extended one. *)
Theorem extended_parameter_not_preferred (w : world) :
  response_filename response_both w = (Ok (js "a.pptx"), w)
  /\ two_step_capture disposition_both = Some (js "b.pptx").
Proof. split; vm_compute; reflexivity. Qed.

(** The rest of the chain holds.  Without a disposition header the name is
    the last segment of the URL path, the query string left out. *)
Lemma filename_from_url_path (r : response) (dir name : jsstring)
      (w : world) :
  headers r = [] ->
  Url.pathname (url r) = Some (dir ++ c_slash :: name) ->
  forallb (fun c => negb (N.eqb c c_slash)) name = true ->
  response_filename r w
  = (Ok (if truthy name then name else generic_name), w).
Proof.
  intros Hh Hp Hn. unfold response_filename, disposition.
  rewrite Hh, Hp; simpl.
  unfold Path.pop. rewrite (Path_split_last dir name Hn).
  reflexivity.
Qed.

Example filename_report :
  fst (response_filename response_report (fresh NoFile))
  = Ok (js "report.pdf").
Proof. reflexivity. Qed.

Example filename_generic :
  fst (response_filename response_bare (fresh NoFile)) = Ok generic_name.
Proof. reflexivity. Qed.

(** A captured value that is not a well-formed escape sequence makes the
    derivation throw instead of falling back. *)
Example filename_malformed_escape :
  fst (response_filename
         (Response (js "https://dl.example.com/files/report.pdf")
                   [(js "content-disposition", js "attachment; filename=100%.pptx")]
                   (Ok []))
         (fresh NoFile))
  = Throw (Rejection "URIError").
Proof. reflexivity. Qed.

End Engine.

(** ** Coalescing of concurrent launches *)

Module Launching.

Import World Coalesce.

(** After [S n] calls with no browser yet: one launch in flight, started by
    the first call, the others suspended on it. *)
Lemma all_wait_for_one_launch (n : nat) :
  run init (repeat Call (S n))
  = State (Globals None (Some 0) [] 1)
          (AwaitingOwn 0 :: repeat (AwaitingOther 0) n).
Proof.
  induction n as [|n IH]; [reflexivity|].
  change (repeat Call (S (S n))) with (Call :: repeat Call (S n)).
  rewrite repeat_cons. unfold run in *. rewrite fold_left_app, IH. simpl.
  rewrite <- repeat_cons. reflexivity.
Qed.

(** Waiters resumed once the browser is cached return it. *)
Lemma resume_waiters_cached (b : browser) (g : globals) (n : nat) :
  cached g = Some b ->
  resume 0 None g (repeat (AwaitingOther 0) n) = (g, repeat (Returned b) n).
Proof.
  intros Hc. induction n as [|n IH]; simpl; [reflexivity|].
  rewrite Hc, IH. reflexivity.
Qed.

(** Waiters resumed with nothing cached each start a launch of their own. *)
Lemma resume_waiters_uncached (o : option error) (g : globals) (n : nat) :
  sharedBrowser g = None ->
  exists g',
    resume 0 o g (repeat (AwaitingOther 0) n)
    = (g', map AwaitingOwn (seq (launches g) n))
    /\ sharedBrowser g' = None.
Proof.
  revert g; induction n as [|n IH]; intros g Hs; simpl.
  - exists g; auto.
  - unfold cached. rewrite Hs. unfold start_launch.
    destruct (IH (Globals (sharedBrowser g) (Some (launches g))
                          (connected g) (S (launches g))) Hs)
      as [g' [E Hs']].
    simpl in E. rewrite E. exists g'; auto.
Qed.

(** The sequential [getSharedBrowser] of module [Downloader] is the
    interleaved one run by a single call. *)
Lemma alone_is_sequential (E : env) (h : bool) (s : nat) (w : world) :
  let r := Downloader.getSharedBrowser E h s w in
  vars (alone E w) = globals_of (snd r)
  /\ callers (alone E w) = [match fst r with
                            | Ok b => Returned b
                            | Throw e => Failed e
                            end].
Proof.
  destruct w as [sb conn ln cn oc sf d f t].
  unfold alone, globals_of, Downloader.getSharedBrowser,
    Downloader.isConnected, bind, get, emit, modify, ret, throw; simpl.
  unfold enter, cached; simpl.
  destruct sb as [b|]; simpl.
  - destruct (existsb (Nat.eqb b) conn); simpl.
    + split; reflexivity.
    + rewrite Nat.eqb_refl. destruct (launch E ln); split; reflexivity.
  - rewrite Nat.eqb_refl. destruct (launch E ln); split; reflexivity.
Qed.

(** C5, as the specification states it, fails when the launch fails: with
    two calls suspended on it, the failure reaches the call that started the
    launch only; the other call catches it and starts a second launch. *)
Lemma failure_does_not_reach_waiters :
  let s := run init [Call; Call; Settle 0 (Some Fixtures.timeout)] in
  callers s = [Failed Fixtures.timeout; AwaitingOwn 1]
  /\ nth_error (callers s) 1 <> Some (Failed Fixtures.timeout)
  /\ launches (vars s) = 2.
Proof. repeat split; discriminate. Qed.

(** C5, amended.  When [S n] calls arrive before any browser exists, one
    launch is started and every call is suspended on it.  If it succeeds,
    every call returns its browser and no other launch is made.  If it
    fails, the failure is raised to the call that started it, while each of
    the other calls catches it and goes on to a launch of its own; the
    in-flight marker is reset, so that a later call launches again.  When
    the shared browser disconnects, the cached reference is cleared and the
    next call starts a fresh launch. *)
Theorem launch_coalescing (n : nat) (e : error) :
  let waiting := run init (repeat Call (S n)) in
  let launched := step waiting (Settle 0 None) in
  let failed := step waiting (Settle 0 (Some e)) in
  let disconnected := step launched (Disconnect 0) in
  (launches (vars waiting) = 1
   /\ callers waiting = AwaitingOwn 0 :: repeat (AwaitingOther 0) n)
  /\ (launches (vars launched) = 1
      /\ callers launched = repeat (Returned 0) (S n))
  /\ (exists started,
        callers failed = Failed e :: map AwaitingOwn started
        /\ List.length started = n)
  /\ (launchingBrowser (vars (run init [Call; Settle 0 (Some e)])) = None
      /\ run init [Call; Settle 0 (Some e); Call]
         = State (Globals None (Some 1) [] 2) [Failed e; AwaitingOwn 1])
  /\ (sharedBrowser (vars disconnected) = None
      /\ step disconnected Call
         = State (Globals None (Some 1) [] 2)
                 (repeat (Returned 0) (S n) ++ [AwaitingOwn 1])).
Proof.
  cbv zeta. rewrite all_wait_for_one_launch.
  assert (Hok : step (State (Globals None (Some 0) [] 1)
                            (AwaitingOwn 0 :: repeat (AwaitingOther 0) n))
                     (Settle 0 None)
                = State (Globals (Some 0) None [0] 1)
                        (repeat (Returned 0) (S n))).
  { simpl. rewrite (resume_waiters_cached 0); reflexivity. }
  rewrite Hok.
  split; [split; reflexivity|].
  split; [split; reflexivity|].
  split.
  { simpl.
    destruct (resume_waiters_uncached (Some e) (Globals None None [] 1) n
                                      eq_refl) as [g' [E _]].
    rewrite E. exists (seq 1 n); split; [reflexivity | apply length_seq]. }
  split; [split; reflexivity|].
  split; [reflexivity|].
  cbn [step vars callers launchingBrowser connected launches filter].
  reflexivity.
Qed.

End Launching.

(** ** Frames of the program *)

Module FrameFacts.

Import World Downloader Frames.
Local Open Scope js_scope.

Section Keeps.

Context {A B X : Type} (f : world -> X).

Lemma keeps_ret (a : A) : keeps f (ret a).
Proof. intros w; reflexivity. Qed.

Lemma keeps_throw (e : error) : keeps f (@throw A e).
Proof. intros w; reflexivity. Qed.

Lemma keeps_lift (r : result A) : keeps f (lift r).
Proof. intros w; reflexivity. Qed.

Lemma keeps_bind (m : M A) (k : A -> M B) :
  keeps f m -> (forall a, keeps f (k a)) -> keeps f (bind m k).
Proof.
  intros Hm Hk w. unfold bind. specialize (Hm w).
  destruct (m w) as [[a|e] w1]; simpl in *; [rewrite Hk|]; exact Hm.
Qed.

Lemma keeps_try_catch (m : M A) (h : error -> M A) :
  keeps f m -> (forall e, keeps f (h e)) -> keeps f (try_catch m h).
Proof.
  intros Hm Hh w. unfold try_catch. specialize (Hm w).
  destruct (m w) as [[a|e] w1]; simpl in *; [|rewrite Hh]; exact Hm.
Qed.

End Keeps.

Lemma keeps_check {X : Type} (f : world -> X) (o : option error) :
  keeps f (check o).
Proof. destruct o; intros w; reflexivity. Qed.

Lemma keeps_get {X : Type} (f : world -> X) : keeps f get.
Proof. intros w; reflexivity. Qed.

Lemma keeps_modify {X : Type} (f : world -> X) (g : world -> world) :
  (forall w, f (g w) = f w) -> keeps f (modify g).
Proof. intros H w; apply H. Qed.

Lemma keeps_finally {A X : Type} (f : world -> X) (m : M A) (c : M unit) :
  keeps f m -> keeps f c -> keeps f (finally m c).
Proof.
  intros Hm Hc w. unfold finally. specialize (Hm w).
  destruct (m w) as [r w1]; simpl in *. rewrite Hc; exact Hm.
Qed.

(** One structural step of a proof that a program keeps an observation
    that no [modify] of it touches. *)
Ltac keeps_step :=
  first
    [ assumption
    | match goal with
      | H : forall _, _ |- _ => solve [apply H]
      end
    | apply keeps_ret | apply keeps_throw | apply keeps_lift
    | apply keeps_check | apply keeps_get
    | apply keeps_modify; intros []; reflexivity
    | apply keeps_bind; [|intros]
    | apply keeps_try_catch; [|intros]
    | match goal with
      | |- keeps _ (match ?x with _ => _ end) => destruct x
      end ].

Ltac keeps_tac := unfold emit; repeat keeps_step.

Section Same.

Context {A B : Type}.

Lemma same_ret (a : A) : same_result (ret a).
Proof. intros w w'; reflexivity. Qed.

Lemma same_throw (e : error) : same_result (@throw A e).
Proof. intros w w'; reflexivity. Qed.

Lemma same_lift (r : result A) : same_result (lift r).
Proof. intros w w'; reflexivity. Qed.

Lemma same_bind (m : M A) (k : A -> M B) :
  same_result m -> (forall a, same_result (k a)) -> same_result (bind m k).
Proof.
  intros Hm Hk w w'. unfold bind. specialize (Hm w w').
  destruct (m w) as [[a|e] w1], (m w') as [[a'|e'] w1']; simpl in *;
    try discriminate; injection Hm as <-; [apply Hk | reflexivity].
Qed.

Lemma same_try_catch (m : M A) (h : error -> M A) :
  same_result m -> (forall e, same_result (h e)) ->
  same_result (try_catch m h).
Proof.
  intros Hm Hh w w'. unfold try_catch. specialize (Hm w w').
  destruct (m w) as [[a|e] w1], (m w') as [[a'|e'] w1']; simpl in *;
    try discriminate; injection Hm as <-; [reflexivity | apply Hh].
Qed.

End Same.

Lemma same_check (o : option error) : same_result (check o).
Proof. destruct o; intros w w'; reflexivity. Qed.

Lemma same_modify (g : world -> world) : same_result (modify g).
Proof. intros w w'; reflexivity. Qed.

Ltac same_step :=
  first
    [ assumption
    | match goal with
      | H : forall _, _ |- _ => solve [apply H]
      end
    | apply same_ret | apply same_throw | apply same_lift
    | apply same_check | apply same_modify
    | apply same_bind; [|intros]
    | apply same_try_catch; [|intros]
    | match goal with
      | |- same_result (match ?x with _ => _ end) => destruct x
      end ].

Ltac same_tac := unfold emit; repeat same_step.

Lemma same_click_candidates (pg : page) (sels : list selector) :
  same_result (click_candidates pg sels).
Proof. induction sels as [|s sels IH]; cbn [click_candidates]; same_tac. Qed.

Lemma same_query_and_click (pg : page) (sels : list selector) :
  same_result (query_and_click pg sels).
Proof. induction sels as [|s sels IH]; cbn [query_and_click]; same_tac. Qed.

(** What an engine call resolves depends on the page alone. *)
Lemma same_clickImmediateDownload (pg : page) :
  same_result (clickImmediateDownload pg).
Proof.
  unfold clickImmediateDownload, search_and_click, resolve_signal,
    popup_path, waitForPageSettled.
  pose proof (same_click_candidates pg candidates).
  pose proof (same_query_and_click pg last_resort_selectors).
  same_tac.
Qed.

End FrameFacts.

(** ** The retry loop *)

Module Retrying.

Import World Downloader Frames FrameFacts Outcomes Fixtures.
Local Open Scope js_scope.

Lemma retry_cons (E : env) (ms i : nat) (rest : list nat) (w : world) :
  retry E ms (i :: rest) w
  = match clickImmediateDownload (attempt_page E i) w with
    | (Ok (Some s), w1) => (Ok (Some s), w1)
    | (_, w1) => retry E ms rest (set_trace (trace w1 ++ [EvSettle ms]) w1)
    end.
Proof.
  cbn [retry]. unfold bind, try_catch, waitForPageSettled, emit, modify, ret.
  destruct (clickImmediateDownload (attempt_page E i) w) as [[[s|]|e] w1];
    reflexivity.
Qed.

(** When every attempt resolves nothing, so does the loop. *)
Lemma retry_none (E : env) (ms : nat) (attempts : list nat) (w : world) :
  Forall (resolves_nothing E) attempts ->
  fst (retry E ms attempts w) = Ok None.
Proof.
  revert w; induction attempts as [|i rest IH]; intros w Hall;
    [reflexivity|].
  inversion Hall as [|? ? Hi Hrest]; subst.
  rewrite retry_cons.
  destruct (clickImmediateDownload (attempt_page E i) w) as [[[s|]|e] w1]
    eqn:Hc; try (apply IH; exact Hrest).
  exfalso. apply (Hi s w). rewrite Hc; reflexivity.
Qed.

(** A signal the loop returns was resolved by one of the attempts. *)
Lemma retry_some (E : env) (ms : nat) (attempts : list nat) (w w' : world)
      (s : signal) :
  retry E ms attempts w = (Ok (Some s), w') ->
  exists i, In i attempts /\ resolves E i s.
Proof.
  revert w; induction attempts as [|i rest IH]; intros w; [discriminate|].
  rewrite retry_cons.
  pose proof (same_clickImmediateDownload (attempt_page E i)) as Hsame.
  destruct (clickImmediateDownload (attempt_page E i) w) as [[[s0|]|e] w1]
    eqn:Hc.
  - intros [= -> ->]. exists i; split; [left; reflexivity|].
    intros w0. rewrite (Hsame w0 w), Hc; reflexivity.
  - intros H. destruct (IH _ H) as [j [Hin Hj]]. exists j; split; auto.
    right; exact Hin.
  - intros H. destruct (IH _ H) as [j [Hin Hj]]. exists j; split; auto.
    right; exact Hin.
Qed.

(** X1.  The retry loop of a request never throws, whatever the engine
    does: a failing engine call counts as one that resolved nothing.  It
    returns the signal of the first attempt, in order, that resolves one,
    every earlier attempt having resolved nothing, and returns nothing only
    when every attempt resolved nothing. *)
Theorem retry_returns_first_signal
        (E : env) (ms : nat) (attempts : list nat) (w : world) :
  match fst (retry E ms attempts w) with
  | Ok (Some s) =>
      exists before i after,
        attempts = before ++ i :: after
        /\ resolves E i s /\ Forall (resolves_nothing E) before
  | Ok None => Forall (resolves_nothing E) attempts
  | Throw _ => False
  end.
Proof.
  revert w; induction attempts as [|i rest IH]; intros w.
  - simpl. constructor.
  - rewrite retry_cons.
    pose proof (same_clickImmediateDownload (attempt_page E i)) as Hsame.
    destruct (clickImmediateDownload (attempt_page E i) w) as [r w1] eqn:Hc.
    assert (Hr : forall w', fst (clickImmediateDownload (attempt_page E i) w')
                            = r)
      by (intros w'; rewrite (Hsame w' w), Hc; reflexivity).
    assert (Hnone : (forall s, r <> Ok (Some s)) -> resolves_nothing E i)
      by (intros Hn s w'; rewrite Hr; apply Hn).
    assert (Hnext : (forall s, r <> Ok (Some s)) ->
              match fst (retry E ms rest
                               (set_trace (trace w1 ++ [EvSettle ms]) w1)) with
              | Ok (Some s) =>
                  exists before j after,
                    i :: rest = before ++ j :: after
                    /\ resolves E j s /\ Forall (resolves_nothing E) before
              | Ok None => Forall (resolves_nothing E) (i :: rest)
              | Throw _ => False
              end).
    { intros Hn.
      specialize (IH (set_trace (trace w1 ++ [EvSettle ms]) w1)).
      destruct (fst (retry E ms rest _)) as [[s|]|e'].
      - destruct IH as [before [j [after [-> [Hj Hb]]]]].
        exists (i :: before), j, after. repeat split; auto.
      - constructor; auto.
      - exact IH. }
    destruct r as [[s|]|e].
    + simpl. exists [], i, rest. repeat split; [exact Hr | constructor].
    + apply Hnext; discriminate.
    + apply Hnext; discriminate.
Qed.

End Retrying.

(** ** From the attempts to the artifact *)

Module Requests.

Import World Downloader Expected Frames FrameFacts Outcomes Fixtures
       LogFacts Retrying.
Import Acquisition.
Local Open Scope js_scope.

(** An artifact the body of a request returns was made from a signal its
    retry loop returned. *)
Lemma request_body_ok (E : env) (u tmpDir : jsstring) (c : context)
      (usr pwd : jsstring) (w w' : world) (a : artifact) :
  request_body E u tmpDir c usr pwd w = (Ok a, w') ->
  exists ms s w0 w1,
    retry E ms (seq 0 3) w0 = (Ok (Some s), w1)
    /\ materialize E tmpDir s w1 = (Ok a, w').
Proof.
  unfold request_body. intros H.
  do 7 (apply bind_ok in H; destruct H as (? & ? & _ & H); cbv beta in H).
  apply bind_ok in H. destruct H as (d & w1 & Hd & H).
  destruct d as [s|]; [|discriminate].
  match type of Hd with
  | (if ?b then _ else _) _ = _ => destruct b
  end;
    apply bind_ok in Hd; destruct Hd as (? & w0 & _ & Hd);
    eexists _, s, w0, w1; split; eassumption.
Qed.

Lemma in_seq_three (i : nat) : In i (seq 0 3) -> i < 3.
Proof. simpl. intros [<- | [<- | [<- | []]]]; lia. Qed.

(** X2.  An artifact is only ever returned from a signal that one of the
    three engine attempts of the request resolved, materialised in the
    temporary directory the request created. *)
Theorem artifact_comes_from_an_attempt
        (E : env) (templateUrl : jsstring) (o : options) (a : artifact)
        (w w1 : world) :
  downloadAipptTemplate E templateUrl o w = (Ok a, w1) ->
  exists i s,
    i < 3 /\ resolves E i s
    /\ exists tmpDir w0 w0',
         mkdtempSync E = Ok tmpDir
         /\ materialize E tmpDir s w0 = (Ok a, w0').
Proof.
  intros Hrun.
  destruct (request_shape E templateUrl o w)
    as [[e [added [Hfail _]]]
       | [tmpDir [c [usr [pwd [wt [before [_ [_ [Hmk R]]]]]]]]]].
  { rewrite Hrun in Hfail; discriminate. }
  rewrite Hrun in R. unfold finally in R.
  destruct (request_body E templateUrl tmpDir c usr pwd wt) as [r' w'] eqn:Hb.
  injection R as <- _.
  destruct (request_body_ok E templateUrl tmpDir c usr pwd wt w' a Hb)
    as [ms [s [w0 [w2 [Hretry Hmat]]]]].
  destruct (retry_some E ms (seq 0 3) w0 w2 s Hretry) as [i [Hin Hi]].
  exists i, s. split; [apply in_seq_three; exact Hin|].
  split; [exact Hi|]. exists tmpDir, w2, w'. auto.
Qed.

Lemma artifact_comes_from_an_attempt_witness :
  exists i s, i < 3 /\ resolves good i s.
Proof.
  assert (Hm : exists a w1,
             downloadAipptTemplate good template defaults (fresh NoFile)
             = (Ok a, w1))
    by (eexists; eexists; vm_compute; reflexivity).
  destruct Hm as [a [w1 Hm]].
  destruct (artifact_comes_from_an_attempt good template defaults a
              (fresh NoFile) w1 Hm) as [i [s [Hi [Hs _]]]].
  exists i, s; auto.
Defined.

(** X3.  When navigation goes through, the page shows no login control
    and none of the three attempts resolves a signal, the body of the
    request fails with the message that the download did not start,
    whatever the engine threw: its own not-found error does not reach the
    caller. *)
Theorem no_signal_means_download_not_started
        (E : env) (templateUrl tmpDir : jsstring) (c : context)
        (usr pwd : jsstring) (w : world) :
  goto E = None ->
  settle_wait E = None ->
  count (login_page E) SelLoginRegister = Ok 0 ->
  count (login_page E) SelLoginAndRegister = Ok 0 ->
  Forall (resolves_nothing E) (seq 0 3) ->
  fst (request_body E templateUrl tmpDir c usr pwd w)
  = Throw (Error "下载未开始").
Proof.
  intros Hgoto Hwait Hc1 Hc2 Hall.
  unfold request_body, loginRegisterBtn, waitForPageSettled.
  rewrite Hgoto, Hwait, Hc1.
  unfold bind at 1, emit at 1, modify at 1.
  unfold bind at 1, check at 1, ret at 1.
  unfold bind at 1, emit at 1, modify at 1.
  unfold bind at 1, emit at 1, modify at 1.
  unfold bind at 1, check at 1, ret at 1.
  unfold bind at 1, bind at 1, lift at 1, ret at 1.
  cbn [Nat.eqb]. rewrite Hc2.
  unfold bind at 1, lift at 1. cbn [Nat.ltb Nat.leb negb].
  unfold bind at 1, bind at 1, emit at 1, modify at 1.
  match goal with
  | |- context [retry E 200 (seq 0 3) ?w0] =>
      pose proof (retry_none E 200 (seq 0 3) w0 Hall) as Hr;
      destruct (retry E 200 (seq 0 3) w0) as [r wr]
  end.
  simpl in Hr; subst r. reflexivity.
Qed.

Lemma no_signal_means_download_not_started_witness :
  fst (request_body download_never_starts template tmp 0 (js "user")
                    (js "secret") (fresh NoFile))
  = Throw (Error "下载未开始").
Proof.
  apply (no_signal_means_download_not_started download_never_starts template
           tmp 0 (js "user") (js "secret") (fresh NoFile));
    try reflexivity.
  repeat constructor; intros s w H; vm_compute in H; discriminate.
Defined.

End Requests.

(** ** The login branch and the stored session *)

Module Sessions.

Import World Downloader Expected Frames FrameFacts Outcomes Fixtures
       LogFacts.
Local Open Scope js_scope.

Section Blind.

Context {X : Type} (f : world -> X).

Lemma keeps_emit (e : event) : log_blind f -> keeps f (emit e).
Proof. intros Hf w. apply Hf. Qed.

Hypothesis Hf : log_blind f.

Lemma keeps_click_candidates (pg : page) (sels : list selector) :
  keeps f (click_candidates pg sels).
Proof.
  pose proof (fun e => keeps_emit e Hf).
  induction sels as [|s sels IH]; cbn [click_candidates]; repeat keeps_step.
Qed.

Lemma keeps_query_and_click (pg : page) (sels : list selector) :
  keeps f (query_and_click pg sels).
Proof.
  pose proof (fun e => keeps_emit e Hf).
  induction sels as [|s sels IH]; cbn [query_and_click]; repeat keeps_step.
Qed.

Lemma keeps_clickImmediateDownload (pg : page) :
  keeps f (clickImmediateDownload pg).
Proof.
  unfold clickImmediateDownload, search_and_click, resolve_signal,
    popup_path, waitForPageSettled.
  pose proof (fun e => keeps_emit e Hf).
  pose proof (keeps_click_candidates pg candidates).
  pose proof (keeps_query_and_click pg last_resort_selectors).
  repeat keeps_step.
Qed.

Lemma keeps_retry (E : env) (ms : nat) (attempts : list nat) :
  keeps f (retry E ms attempts).
Proof.
  pose proof (fun e => keeps_emit e Hf).
  induction attempts as [|i rest IH]; cbn [retry]; [repeat keeps_step|].
  pose proof (keeps_clickImmediateDownload (attempt_page E i)).
  unfold waitForPageSettled. repeat keeps_step.
Qed.

End Blind.

Lemma keeps_materialize {X : Type} (f : world -> X) (E : env)
      (tmpDir : jsstring) (s : signal) :
  file_blind f -> keeps f (materialize E tmpDir s).
Proof.
  intros [Hlog Hfile].
  pose proof (fun e => keeps_emit f e Hlog).
  assert (Hw : forall p bytes, keeps f (write_file p bytes))
    by (intros p bytes w; apply Hfile).
  unfold materialize, response_filename. repeat keeps_step.
Qed.

(** The body of a request whose page shows no login control, once the
    navigation is through. *)
Lemma request_body_direct (E : env) (u tmpDir : jsstring) (c : context)
      (usr pwd : jsstring) (w : world) :
  goto E = None ->
  settle_wait E = None ->
  count (login_page E) SelLoginRegister = Ok 0 ->
  count (login_page E) SelLoginAndRegister = Ok 0 ->
  request_body E u tmpDir c usr pwd w
  = bind (retry E 200 (seq 0 3))
         (fun download => match download with
                          | None => throw (Error "下载未开始")
                          | Some s => materialize E tmpDir s
                          end)
         (set_trace (trace w ++ [EvGoto u; EvSettle 250; EvWait 200;
                                 EvSettle 250]) w).
Proof.
  intros Hgoto Hwait Hc1 Hc2.
  unfold request_body, loginRegisterBtn, waitForPageSettled.
  rewrite Hgoto, Hwait, Hc1.
  unfold bind at 1, emit at 1, modify at 1.
  unfold bind at 1, check at 1, ret at 1.
  unfold bind at 1, emit at 1, modify at 1.
  unfold bind at 1, emit at 1, modify at 1.
  unfold bind at 1, check at 1, ret at 1.
  unfold bind at 1, bind at 1, lift at 1, ret at 1.
  cbn [Nat.eqb]. rewrite Hc2.
  unfold bind at 1, lift at 1. cbn [Nat.ltb Nat.leb negb].
  unfold bind at 1, bind at 1, emit at 1, modify at 1.
  cbn [trace set_trace]. rewrite <- !app_assoc. reflexivity.
Qed.

(** X4.  When the page shows no login control, the request types no
    credential into the page and leaves the stored session as it was,
    whatever else happens. *)
Theorem no_login_control_no_credentials
        (E : env) (templateUrl tmpDir : jsstring) (c : context)
        (usr pwd : jsstring) (w : world) :
  count (login_page E) SelLoginRegister = Ok 0 ->
  count (login_page E) SelLoginAndRegister = Ok 0 ->
  let w' := snd (request_body E templateUrl tmpDir c usr pwd w) in
  state_file w' = state_file w
  /\ exists added,
       trace w' = trace w ++ added
       /\ Forall (fun e => ~ login_event e) added.
Proof.
  intros Hc1 Hc2. cbv zeta.
  destruct (goto E) as [e|] eqn:Hgoto.
  { unfold request_body. rewrite Hgoto. run_monad.
    split; [reflexivity|]. eexists; split; [reflexivity|].
    repeat constructor; auto. }
  destruct (settle_wait E) as [e|] eqn:Hwait.
  { unfold request_body, waitForPageSettled. rewrite Hgoto, Hwait.
    run_monad. rewrite <- !app_assoc. simpl.
    split; [reflexivity|]. eexists; split; [reflexivity|].
    repeat constructor; auto. }
  rewrite (request_body_direct E templateUrl tmpDir c usr pwd w
             Hgoto Hwait Hc1 Hc2).
  set (w0 := set_trace _ w).
  set (rest := bind _ _).
  assert (Hlog : log_blind state_file) by (intros t []; reflexivity).
  assert (Hfile : file_blind state_file)
    by (split; [exact Hlog | intros p b []; reflexivity]).
  assert (Hk : keeps state_file rest).
  { subst rest.
    pose proof (keeps_retry state_file Hlog E 200 (seq 0 3)).
    pose proof (keeps_materialize state_file E tmpDir).
    apply keeps_bind; [assumption|].
    intros [s|]; [auto | apply keeps_throw]. }
  assert (He : emits (fun e => ~ login_event e) rest).
  { subst rest. apply emits_bind.
    - apply (emits_weaken engine_event); [|apply emits_retry].
      intros [] He; simpl in *; tauto.
    - intros [s|]; [|apply emits_throw].
      unfold materialize, response_filename, write_file.
      repeat emits_step. }
  split.
  - rewrite Hk. reflexivity.
  - destruct (He w0) as [l [El Fl]].
    exists ([EvGoto templateUrl; EvSettle 250; EvWait 200; EvSettle 250] ++ l).
    rewrite El. subst w0. cbn [trace set_trace].
    rewrite <- app_assoc. split; [reflexivity|].
    apply Forall_app; split; [|exact Fl].
    repeat constructor; auto.
Qed.

Lemma no_login_control_no_credentials_witness :
  state_file (snd (request_body good template tmp 0 (js "user") (js "secret")
                                (fresh NoFile)))
  = NoFile.
Proof.
  apply (no_login_control_no_credentials good template tmp 0 (js "user")
           (js "secret") (fresh NoFile)); reflexivity.
Defined.

(** X5.  A login that goes through, which it does exactly when none of
    its four unguarded steps rejects, whatever the clicks and the
    storage-state call do, asks for the session to be stored: when that call
    succeeds the session file holds the state of the context of the request.
    A login that throws leaves the stored session as it was.  A
    storage-state call that fails does not fail the login. *)
Theorem session_stored_after_login
        (E : env) (btn : selector) (c : context) (u p : jsstring)
        (w : world) :
  (fst (login E btn c u p w) = Ok tt <->
   login_rejection (login_page E) = None)
  /\ match fst (login E btn c u p w), storageState E with
     | Ok _, None => state_file (snd (login E btn c u p w)) = Saved c
     | Ok _, Some _ => True
     | Throw _, _ => state_file (snd (login E btn c u p w)) = state_file w
     end.
Proof.
  destruct w as [sb conn ln cn oc sf d f t].
  unfold login, login_rejection, click_guarded, waitForPageSettled.
  run_monad.
  destruct (count (login_page E) SelSwitchPassword) as [n|e].
  - simpl.
    destruct (count (login_page E) SelSubmitSpan) as [m|e'];
      repeat destruct_inner;
      (split; [split; intros; first [reflexivity | discriminate]|]);
      cbn; try reflexivity; try exact I.
  - repeat destruct_inner;
      (split; [split; intros; discriminate | reflexivity]).
Qed.

Lemma session_stored_after_login_witness :
  state_file (snd (login (environment None login_without_submit
                                      (fun _ => network_only) None)
                         SelLoginRegister 7 (js "user") (js "secret")
                         (fresh NoFile)))
  = Saved 7.
Proof.
  exact (proj2 (session_stored_after_login
                  (environment None login_without_submit
                               (fun _ => network_only) None)
                  SelLoginRegister 7 (js "user") (js "secret")
                  (fresh NoFile))).
Defined.

End Sessions.

(** ** Which responses the listener takes, and how a download is named *)

Module Signals.

Import World Downloader Expected Frames Fixtures StringFacts PathFacts.
Local Open Scope js_scope.

Lemma re_attachment_found (pre rest post : jsstring) :
  strip_prefix_ci (js "attachment") rest = Some post ->
  Regex.re_attachment (pre ++ rest) = true.
Proof.
  intros H. induction pre as [|c pre IH].
  - destruct rest as [|c rest]; [discriminate|].
    cbn [app Regex.re_attachment]. rewrite H. reflexivity.
  - cbn [app Regex.re_attachment].
    destruct (strip_prefix_ci (js "attachment") (c :: pre ++ rest));
      [reflexivity | exact IH].
Qed.

Lemma truthy_app (pre rest : jsstring) :
  truthy rest = true -> truthy (pre ++ rest) = true.
Proof. destruct pre; [auto | reflexivity]. Qed.

(** X6.  A response whose content-disposition carries the word attachment,
    in any letter case and anywhere in the value, is taken by the response
    listener as the file, whatever its URL. *)
Theorem attachment_header_is_taken (r : response) (pre rest post : jsstring) :
  disposition r = Some (pre ++ rest) ->
  strip_prefix_ci (js "attachment") rest = Some post ->
  is_file_response r = true.
Proof.
  intros Hd Hword. unfold is_file_response. rewrite Hd.
  rewrite (re_attachment_found pre rest post Hword).
  rewrite truthy_app; [reflexivity|].
  destruct rest; [discriminate | reflexivity].
Qed.

Lemma attachment_header_is_taken_witness :
  is_file_response
    (Response (js "https://dl.example.com/get")
              [(js "content-disposition", js "inline; ATTACHMENT; x=1")]
              (Ok []))
  = true.
Proof.
  apply (attachment_header_is_taken _ (js "inline; ") (js "ATTACHMENT; x=1")
           (js "; x=1")); reflexivity.
Defined.

Lemma strip_prefix_ci_same_case (a b q : jsstring) :
  map upper b = map upper a -> strip_prefix_ci a (b ++ q) = Some q.
Proof.
  revert b; induction a as [|x a IH]; intros [|y b]; simpl;
    try discriminate; [reflexivity|].
  intros [= Hxy Hab]. unfold ci_eqb. rewrite Hxy, N.eqb_refl.
  apply IH; exact Hab.
Qed.

Lemma re_file_url_found (pre tail : jsstring) :
  Regex.file_url_at tail = true -> Regex.re_file_url (pre ++ tail) = true.
Proof.
  intros H. induction pre as [|c pre IH].
  - destruct tail as [|c tail]; [discriminate|].
    cbn [app Regex.re_file_url]. rewrite H. reflexivity.
  - cbn [app Regex.re_file_url]. rewrite IH. apply orb_true_r.
Qed.

Lemma re_file_url_needs_dot (s : jsstring) :
  ~ In c_dot s -> Regex.re_file_url s = false.
Proof.
  induction s as [|c s IH]; intros Hnot; [reflexivity|].
  cbn [Regex.re_file_url Regex.file_url_at].
  destruct (N.eqb_spec c c_dot) as [->|Hc].
  - exfalso; apply Hnot; left; reflexivity.
  - simpl. apply IH. intros Hin; apply Hnot; right; exact Hin.
Qed.

(** X7.  Without a content-disposition header the listener goes by the
    URL: a URL in which a dot is followed by one of ppt, pptx, zip, rar, 7z,
    pdf, in any letter case, and then by nothing or by a query string, is
    taken as the file; a URL without any dot is not. *)
Theorem file_like_url_is_taken (r : response) :
  disposition r = None ->
  (forall pre ext ext' q,
      In ext Regex.file_extensions ->
      map upper ext' = map upper ext ->
      Regex.query_then_end q = true ->
      url r = pre ++ c_dot :: ext' ++ q ->
      is_file_response r = true)
  /\ (~ In c_dot (url r) -> is_file_response r = false).
Proof.
  intros Hd. unfold is_file_response. rewrite Hd. split.
  - intros pre ext ext' q Hin Hcase Hq ->.
    apply re_file_url_found. cbn [Regex.file_url_at].
    rewrite N.eqb_refl. cbn [andb]. apply existsb_exists.
    exists ext. split; [exact Hin|].
    rewrite (strip_prefix_ci_same_case ext ext' q Hcase). exact Hq.
  - apply re_file_url_needs_dot.
Qed.

Lemma file_like_url_is_taken_witness :
  is_file_response
    (Response (js "https://dl.example.com/files/Deck.PPTX?sig=abc") []
              (Ok []))
  = true.
Proof.
  destruct (file_like_url_is_taken
              (Response (js "https://dl.example.com/files/Deck.PPTX?sig=abc")
                        [] (Ok [])) eq_refl) as [H _].
  apply (H (js "https://dl.example.com/files/Deck") (js "pptx") (js "PPTX")
           (js "?sig=abc")); try reflexivity.
  simpl; auto.
Defined.

(** X8.  A native download is saved under the name the browser suggests,
    or under the generic name when it suggests none; for a name that is a
    single path segment the artifact carries exactly that name and the file
    is recorded with the bytes of the download.  When saving fails the
    request throws that error. *)
Theorem native_download_is_saved_under_its_name
        (E : env) (tmpDir : jsstring) (d : download) (w : world) :
  let name := or_str (suggestedFilename d) generic_name in
  Path.plain name = true ->
  match saveAs d with
  | None =>
      exists a w',
        materialize E tmpDir (IsDownload d) w = (Ok a, w')
        /\ filename a = name
        /\ filePath a = Path.join tmpDir name
        /\ files w' = (filePath a, payload d) :: files w
  | Some e => fst (materialize E tmpDir (IsDownload d) w) = Throw e
  end.
Proof.
  intros name Hplain. unfold materialize. fold name.
  unfold bind, emit, modify, check, write_file, ret, throw.
  destruct (saveAs d) as [e|].
  - reflexivity.
  - eexists; eexists; split; [reflexivity|].
    cbn [filename filePath]. split; [apply basename_join; exact Hplain|].
    split; [reflexivity|]. destruct w; reflexivity.
Qed.

Lemma native_download_is_saved_under_its_name_witness :
  exists a w',
    materialize good tmp (IsDownload (Download [] [80; 75]%N None))
                (fresh NoFile) = (Ok a, w')
    /\ filename a = generic_name.
Proof.
  pose proof (native_download_is_saved_under_its_name good tmp
                (Download [] [80; 75]%N None) (fresh NoFile) eq_refl) as H.
  cbn [saveAs] in H. destruct H as [a [w' [Hm [Hn _]]]].
  exists a, w'; auto.
Defined.

End Signals.

(** ** Where the file is written *)

Module Locations.

Import World Downloader Expected Frames Fixtures StringFacts PathFacts.
Import Path.
Local Open Scope N_scope.

Lemma plain_no_slash (name : jsstring) :
  plain name = true -> forallb (fun c => negb (c =? c_slash)) name = true.
Proof. unfold plain; rewrite !andb_true_iff; tauto. Qed.

Lemma plain_not_empty (name : jsstring) : plain name = true -> name <> [].
Proof. intros H ->; discriminate. Qed.

Lemma split_slash_prefix (seg y : jsstring) :
  forallb (fun c => negb (c =? c_slash)) seg = true ->
  split_slash (seg ++ c_slash :: y) = seg :: split_slash y.
Proof.
  induction seg as [|c seg IH]; intros Hs; [reflexivity|].
  simpl in Hs. apply andb_true_iff in Hs as [Hc Hs].
  apply negb_true_iff in Hc. cbn [app split_slash]. rewrite Hc, (IH Hs).
  reflexivity.
Qed.

Lemma split_join_slash (segs : list jsstring) :
  Forall (fun x => plain x = true) segs -> segs <> [] ->
  split_slash (join_slash segs) = segs.
Proof.
  induction segs as [|seg [|seg' rest] IH]; intros Hall Hne;
    [contradiction | |].
  - inversion Hall; subst. apply split_slash_segment.
    apply plain_no_slash; assumption.
  - inversion Hall; subst.
    change (join_slash (seg :: seg' :: rest))
      with (seg ++ c_slash :: join_slash (seg' :: rest)).
    rewrite split_slash_prefix by (apply plain_no_slash; assumption).
    rewrite IH; [reflexivity | assumption | discriminate].
Qed.

Lemma normalize_segments_plains (aa : bool) (xs stack : list jsstring) :
  Forall (fun x => plain x = true) xs ->
  normalize_segments aa stack xs = rev xs ++ stack.
Proof.
  revert stack; induction xs as [|x xs IH]; intros stack Hall;
    [reflexivity|].
  inversion Hall as [|? ? Hx Hxs]; subst.
  change (x :: xs) with ([x] ++ xs).
  rewrite normalize_segments_app, (normalize_segments_plain _ _ _ Hx).
  rewrite (IH _ Hxs). cbn [rev app]. rewrite <- app_assoc. reflexivity.
Qed.

Lemma join_slash_last (segs : list jsstring) (name : jsstring) :
  segs <> [] ->
  join_slash (segs ++ [name]) = join_slash segs ++ c_slash :: name.
Proof.
  induction segs as [|seg [|seg' rest] IH]; intros Hne;
    [contradiction | reflexivity |].
  change (join_slash ((seg :: seg' :: rest) ++ [name]))
    with (seg ++ c_slash :: join_slash ((seg' :: rest) ++ [name])).
  rewrite IH by discriminate.
  change (join_slash (seg :: seg' :: rest))
    with (seg ++ c_slash :: join_slash (seg' :: rest)).
  rewrite <- app_assoc. reflexivity.
Qed.

Lemma join_slash_not_empty (segs : list jsstring) (name : jsstring) :
  name <> [] -> join_slash (segs ++ [name]) <> [].
Proof.
  intros Hn. destruct segs as [|seg segs]; [exact Hn|].
  rewrite join_slash_last by discriminate.
  intros H. apply app_eq_nil in H as [_ H]. discriminate.
Qed.

(** An absolute path whose segments end in a plain name, normalised. *)
Lemma normalize_absolute (p name : jsstring) (segs : list jsstring) :
  is_absolute p = true ->
  has_trailing_slash p = false ->
  split_slash p = segs ++ [name] ->
  plain name = true ->
  normalize p
  = c_slash :: join_slash (rev (normalize_segments false [] segs) ++ [name]).
Proof.
  intros Habs Htrail Hsplit Hn. unfold normalize.
  destruct p as [|c p']; [discriminate|].
  rewrite Habs, Htrail, Hsplit, normalize_segments_app,
    (normalize_segments_plain _ _ _ Hn), app_nil_r.
  cbn [negb rev].
  destruct (join_slash (rev (normalize_segments false [] segs) ++ [name]))
    eqn:Ej; [|reflexivity].
  exfalso. revert Ej. apply join_slash_not_empty, plain_not_empty, Hn.
Qed.

Lemma split_absolute (segs : list jsstring) :
  Forall (fun x => plain x = true) segs ->
  exists skipped,
    split_slash (absolute segs) = skipped ++ segs
    /\ Forall (fun x => x = []) skipped.
Proof.
  intros Hall. unfold absolute.
  change (split_slash (c_slash :: join_slash segs))
    with ([] :: split_slash (join_slash segs)).
  destruct segs as [|seg segs].
  - exists [[]; []]. split; [reflexivity | repeat constructor].
  - rewrite split_join_slash by (auto; discriminate).
    exists [[]]. split; [reflexivity | repeat constructor].
Qed.

Lemma normalize_segments_skips (aa : bool) (skipped xs stack : list jsstring) :
  Forall (fun x => x = []) skipped ->
  normalize_segments aa stack (skipped ++ xs)
  = normalize_segments aa stack xs.
Proof.
  induction 1 as [|x skipped Hx _ IH]; [reflexivity|].
  subst x. exact IH.
Qed.

Lemma absolute_last_not_slash (segs : list jsstring) (mid name : jsstring) :
  plain name = true ->
  has_trailing_slash (absolute segs ++ mid ++ name) = false.
Proof.
  intros Hn. rewrite app_assoc. apply last_not_slash; exact Hn.
Qed.

(** X9.  A name that is a single path segment, joined to a normalised
    absolute directory, lands directly in that directory: the path is the
    directory, a slash and the name, and lies under the directory. *)
Theorem plain_name_stays_in_directory (segs : list jsstring)
        (name : jsstring) :
  Forall (fun x => plain x = true) segs ->
  segs <> [] ->
  plain name = true ->
  join (absolute segs) name = absolute segs ++ c_slash :: name
  /\ under (absolute segs) (join (absolute segs) name) = true.
Proof.
  intros Hall Hne Hn.
  assert (E : join (absolute segs) name = absolute segs ++ c_slash :: name).
  { unfold join. change (absolute segs) with (c_slash :: join_slash segs).
    destruct name as [|n name]; [discriminate|].
    destruct (split_absolute segs Hall) as [skipped [Hsplit Hskip]].
    rewrite (normalize_absolute _ (n :: name) (skipped ++ segs)); auto.
    - rewrite normalize_segments_skips by exact Hskip.
      rewrite normalize_segments_plains by exact Hall.
      rewrite app_nil_r, rev_involutive, join_slash_last by exact Hne.
      reflexivity.
    - apply (absolute_last_not_slash segs [c_slash] (n :: name) Hn).
    - change ((c_slash :: join_slash segs) ++ c_slash :: n :: name)
        with (absolute segs ++ c_slash :: n :: name).
      rewrite split_slash_snoc by (apply plain_no_slash; exact Hn).
      rewrite Hsplit. reflexivity. }
  split; [exact E|].
  rewrite E. unfold under.
  change (absolute segs ++ c_slash :: name)
    with (absolute segs ++ [c_slash] ++ name).
  rewrite app_assoc, strip_prefix_app. reflexivity.
Qed.

Lemma plain_name_stays_in_directory_witness :
  join tmp (js "x.pptx") = tmp ++ c_slash :: js "x.pptx".
Proof.
  apply (plain_name_stays_in_directory [js "tmp"; js "aippt-Ab12Cd"]
                                       (js "x.pptx")).
  - repeat constructor.
  - discriminate.
  - reflexivity.
Defined.

Lemma strip_prefix_in (p s r : jsstring) (c : N) :
  strip_prefix (p ++ [c]) s = Some r -> In c s.
Proof.
  intros H. apply strip_prefix_some in H. subst s.
  rewrite <- app_assoc. apply in_or_app. right. left. reflexivity.
Qed.

Lemma not_under_sibling (segs : list jsstring) (d name : jsstring) :
  segs <> [] -> plain name = true ->
  under (absolute (segs ++ [d])) (absolute (segs ++ [name])) = false.
Proof.
  intros Hne Hn. unfold under, absolute.
  rewrite !join_slash_last by exact Hne.
  assert (Ha : forall x,
             c_slash :: join_slash segs ++ c_slash :: x
             = (c_slash :: join_slash segs ++ [c_slash]) ++ x)
    by (intros x; cbn [app]; rewrite <- app_assoc; reflexivity).
  rewrite (Ha d), (Ha name).
  set (base := c_slash :: join_slash segs ++ [c_slash]).
  rewrite <- app_assoc.
  assert (Hstrip : forall b x y, strip_prefix (b ++ x) (b ++ y)
                                 = strip_prefix x y).
  { induction b as [|z b IH]; intros; [reflexivity|].
    cbn [app strip_prefix]. rewrite N.eqb_refl. apply IH. }
  rewrite Hstrip.
  destruct (strip_prefix (d ++ [c_slash]) name) as [r|] eqn:Hs;
    [|reflexivity].
  apply strip_prefix_in in Hs. apply plain_no_slash in Hn.
  rewrite forallb_forall in Hn. specialize (Hn _ Hs).
  rewrite N.eqb_refl in Hn. discriminate.
Qed.

Lemma join_parent_reference (segs : list jsstring) (d name : jsstring) :
  Forall (fun x => plain x = true) segs ->
  plain d = true ->
  plain name = true ->
  join (absolute (segs ++ [d])) (js "../" ++ name)
  = absolute (segs ++ [name]).
Proof.
  intros Hall Hd Hn.
  assert (Hall' : Forall (fun x => plain x = true) (segs ++ [d]))
    by (apply Forall_app; split; [exact Hall | repeat constructor; exact Hd]).
  unfold join. change (absolute (segs ++ [d]))
    with (c_slash :: join_slash (segs ++ [d])).
  change (js "../" ++ name) with (c_dot :: c_dot :: c_slash :: name).
  destruct (split_absolute (segs ++ [d]) Hall') as [skipped [Hsplit Hskip]].
  rewrite (normalize_absolute _ name
             ((skipped ++ segs ++ [d]) ++ [[c_dot; c_dot]])); auto.
  - rewrite normalize_segments_app.
    rewrite normalize_segments_skips by exact Hskip.
    rewrite (normalize_segments_plains false (segs ++ [d]) [] Hall').
    rewrite app_nil_r, rev_app_distr. cbn [rev app normalize_segments].
    assert (Hdd : is_dotdot d = false).
    { unfold plain in Hd. rewrite !andb_true_iff, !negb_true_iff in Hd.
      tauto. }
    rewrite Hdd. cbn. rewrite rev_involutive. reflexivity.
  - change ((c_slash :: join_slash (segs ++ [d]))
              ++ c_slash :: c_dot :: c_dot :: c_slash :: name)
      with (absolute (segs ++ [d]) ++ [c_slash; c_dot; c_dot; c_slash]
              ++ name).
    apply absolute_last_not_slash; exact Hn.
  - change ((c_slash :: join_slash (segs ++ [d]))
              ++ c_slash :: c_dot :: c_dot :: c_slash :: name)
      with (absolute (segs ++ [d]) ++ c_slash :: [c_dot; c_dot]
              ++ c_slash :: name).
    rewrite app_comm_cons, app_assoc.
    rewrite split_slash_snoc by (apply plain_no_slash; exact Hn).
    rewrite split_slash_snoc by reflexivity.
    rewrite Hsplit. reflexivity.
Qed.

(** X10.  A name that starts with a parent reference leaves the
    directory: joined to a normalised absolute directory, [../name] is the
    sibling [name] of that directory, and does not lie under it. *)
Theorem parent_reference_leaves_directory (segs : list jsstring)
        (d name : jsstring) :
  Forall (fun x => plain x = true) segs ->
  segs <> [] ->
  plain d = true ->
  plain name = true ->
  join (absolute (segs ++ [d])) (js "../" ++ name)
  = absolute (segs ++ [name])
  /\ under (absolute (segs ++ [d])) (absolute (segs ++ [name])) = false.
Proof.
  intros Hall Hne Hd Hn. split.
  - apply join_parent_reference; assumption.
  - apply not_under_sibling; assumption.
Qed.

Lemma parent_reference_leaves_directory_witness :
  join tmp (js "../x.pptx") = js "/tmp/x.pptx".
Proof.
  apply (parent_reference_leaves_directory [js "tmp"] (js "aippt-Ab12Cd")
                                           (js "x.pptx")).
  - repeat constructor.
  - discriminate.
  - reflexivity.
  - reflexivity.
Defined.

End Locations.

(** ** What a request leaves on disk, and what its release removes *)

Module Releases.

Import World Downloader Expected Frames FrameFacts Outcomes Fixtures
       StringFacts PathFacts LogFacts Sessions Requests Locations.
Import Acquisition.
Local Open Scope js_scope.

Lemma keeps_fs_getSharedBrowser (E : env) (h : bool) (s : nat) :
  keeps (fun w => (dirs w, files w)) (getSharedBrowser E h s).
Proof. unfold getSharedBrowser. keeps_tac. Qed.

Lemma keeps_fs_openContextWithRetry (E : env) (b : browser) (h : bool)
      (s : nat) :
  keeps (fun w => (dirs w, files w)) (openContextWithRetry E b h s).
Proof.
  unfold openContextWithRetry, browser_newContext, on_disconnected.
  pose proof (keeps_fs_getSharedBrowser E h s).
  keeps_tac.
Qed.

Lemma keeps_fs_close_context (E : env) (c : context) :
  keeps (fun w => (dirs w, files w)) (close_context E c).
Proof. unfold close_context. keeps_tac. Qed.

Lemma keeps_dirs_request_body (E : env) (u tmpDir : jsstring) (c : context)
      (usr pwd : jsstring) :
  keeps dirs (request_body E u tmpDir c usr pwd).
Proof.
  assert (Hlog : log_blind dirs) by (intros t []; reflexivity).
  assert (Hfile : file_blind dirs)
    by (split; [exact Hlog | intros p b []; reflexivity]).
  pose proof (keeps_retry dirs Hlog E) as Hretry.
  pose proof (keeps_materialize dirs E tmpDir) as Hmat.
  assert (Hlogin : forall btn, keeps dirs (login E btn c usr pwd))
    by (intros btn; unfold login, click_guarded, waitForPageSettled;
        keeps_tac).
  unfold request_body, loginRegisterBtn, waitForPageSettled.
  keeps_tac; auto.
Qed.

(** A signal materialised adds one file, the one of the artifact. *)
Lemma materialize_writes (E : env) (tmpDir : jsstring) (s : signal)
      (w w' : world) (a : artifact) :
  materialize E tmpDir s w = (Ok a, w') ->
  exists bytes, files w' = (filePath a, bytes) :: files w.
Proof.
  destruct w as [sb conn ln cn oc sf d f t].
  unfold materialize, response_filename, write_file.
  destruct s as [dl|r]; run_monad; repeat destruct_inner;
    intros [= <- <-]; eexists; reflexivity.
Qed.

(** A request that returns an artifact reached its [try] in a world where
    the directory it created exists. *)
Lemma request_reaches_try (E : env) (templateUrl : jsstring) (o : options)
      (a : artifact) (w w1 : world) :
  downloadAipptTemplate E templateUrl o w = (Ok a, w1) ->
  exists tmpDir c usr pwd wt,
    mkdtempSync E = Ok tmpDir
    /\ dirs wt = tmpDir :: dirs w /\ files wt = files w
    /\ finally (request_body E templateUrl tmpDir c usr pwd)
               (close_context E c) wt = (Ok a, w1).
Proof.
  unfold downloadAipptTemplate. intros H.
  destruct (negb _); [discriminate|].
  destruct (_ || _); [discriminate|].
  apply bind_ok in H. destruct H as (tmpDir & w2 & Hmk & H).
  unfold lift in Hmk. injection Hmk as Hmk <-.
  apply bind_ok in H. destruct H as ([] & w3 & He & H).
  unfold emit, modify in He. injection He as <-.
  apply bind_ok in H. destruct H as ([] & w4 & Hm & H).
  unfold modify in Hm. injection Hm as <-.
  apply bind_ok in H. destruct H as (b & w5 & Hb & H).
  apply bind_ok in H. destruct H as (c & w6 & Hc & H).
  match type of Hb with
  | getSharedBrowser _ _ _ ?w0 = _ =>
      pose proof (keeps_fs_getSharedBrowser E
                    (headless_flag o (PLAYWRIGHT_HEADLESS E))
                    (slowMo_value o) w0) as K1
  end.
  rewrite Hb in K1.
  pose proof (keeps_fs_openContextWithRetry E b
                (headless_flag o (PLAYWRIGHT_HEADLESS E)) (slowMo_value o) w5)
    as K2.
  rewrite Hc in K2. cbn [snd] in K1, K2.
  rewrite K1 in K2. injection K2 as Kd Kf.
  eexists tmpDir, c, _, _, w6.
  split; [exact Hmk|]. split; [rewrite Kd; destruct w; reflexivity|].
  split; [rewrite Kf; destruct w; reflexivity | exact H].
Qed.

Lemma existsb_in_dirs (dir : jsstring) (l : list jsstring) :
  In dir l -> existsb (str_eqb dir) l = true.
Proof. apply existsb_str_eqb. Qed.

(** What the forced recursive removal of an existing directory leaves. *)
Lemma rmSync_leaves (E : env) (dir : jsstring) (w : world) :
  In dir (dirs w) ->
  rm_error E dir = None ->
  ~ In dir (dirs (snd (rmSync E dir w)))
  /\ files (snd (rmSync E dir w))
     = filter (fun f => negb (under dir (fst f))) (files w).
Proof.
  intros Hin Hrm. unfold rmSync, bind, emit, modify, get. cbn [fst snd].
  cbn [dirs set_trace]. rewrite (existsb_in_dirs dir _ Hin), Hrm.
  cbn [snd dirs files set_fs set_trace]. split; [|reflexivity].
  rewrite filter_In, str_eqb_refl. intros [_ H]; discriminate.
Qed.

(** X11.  A request that returns an artifact leaves its temporary
    directory in place with the file of the artifact written; when the
    removal meets no error, the release action removes that directory and
    every file under it, and keeps every file that is not under it. *)
Theorem release_removes_the_directory_and_its_files
        (E : env) (templateUrl : jsstring) (o : options) (a : artifact)
        (w w1 : world) :
  downloadAipptTemplate E templateUrl o w = (Ok a, w1) ->
  exists tmpDir bytes,
    mkdtempSync E = Ok tmpDir
    /\ In tmpDir (dirs w1)
    /\ In (filePath a, bytes) (files w1)
    /\ (rm_error E tmpDir = None ->
        let w2 := snd (cleanup a w1) in
        ~ In tmpDir (dirs w2)
        /\ forall f, In f (files w2)
                     <-> In f (files w1) /\ under tmpDir (fst f) = false).
Proof.
  intros Hrun.
  destruct (request_reaches_try E templateUrl o a w w1 Hrun)
    as (tmpDir & c & usr & pwd & wt & Hmk & Hd & Hf & Hfin).
  unfold finally in Hfin.
  destruct (request_body E templateUrl tmpDir c usr pwd wt) as [r wb] eqn:Hb.
  injection Hfin as -> <-.
  pose proof (keeps_dirs_request_body E templateUrl tmpDir c usr pwd wt) as Kb.
  rewrite Hb in Kb. cbn [snd] in Kb.
  pose proof (keeps_fs_close_context E c wb) as Kc. injection Kc as Kcd Kcf.
  destruct (request_body_ok E templateUrl tmpDir c usr pwd wt wb a Hb)
    as (ms & s & w0 & wm & _ & Hmat).
  destruct (materialize_writes E tmpDir s wm wb a Hmat) as [bytes Hfiles].
  assert (Hin : In tmpDir (dirs (snd (close_context E c wb))))
    by (rewrite Kcd, Kb, Hd; left; reflexivity).
  exists tmpDir, bytes. split; [exact Hmk|]. split; [exact Hin|].
  split; [rewrite Kcf, Hfiles; left; reflexivity|].
  intros Hrm. cbv zeta.
  rewrite (request_body_cleanup E templateUrl tmpDir c usr pwd wt wb a Hb).
  destruct (rmSync_leaves E tmpDir _ Hin Hrm) as [Hgone Hkept].
  split; [exact Hgone|].
  intros f. rewrite Hkept, filter_In, negb_true_iff. reflexivity.
Qed.

Lemma release_removes_the_directory_and_its_files_witness :
  exists a w1,
    downloadAipptTemplate good template defaults (fresh NoFile) = (Ok a, w1)
    /\ In tmp (dirs w1)
    /\ ~ In tmp (dirs (snd (cleanup a w1)))
    /\ files (snd (cleanup a w1)) = [].
Proof.
  assert (Hm : exists a w1,
             downloadAipptTemplate good template defaults (fresh NoFile)
             = (Ok a, w1))
    by (eexists; eexists; vm_compute; reflexivity).
  destruct Hm as [a [w1 Hm]]. exists a, w1. split; [exact Hm|].
  destruct (release_removes_the_directory_and_its_files good template
              defaults a (fresh NoFile) w1 Hm)
    as (tmpDir & bytes & Hmk & Hin & _ & Hrel).
  injection Hmk as <-. split; [exact Hin|].
  destruct (Hrel eq_refl) as [Hgone Hfiles]. split; [exact Hgone|].
  destruct (files (snd (cleanup a w1))) as [|f fs] eqn:Ef; [reflexivity|].
  exfalso. destruct (proj1 (Hfiles f) (or_introl eq_refl)) as [Hf Hu].
  vm_compute in Hm. injection Hm as <- <-.
  simpl in Hf. destruct Hf as [<- | []]. vm_compute in Hu. discriminate.
Defined.

(** X12.  A file name that starts with a parent reference puts the file
    beside the temporary directory instead of in it: the artifact then
    carries the bare name, and the file is still there after the release
    action has removed the directory. *)
Theorem parent_reference_outlives_release
        (E : env) (segs : list jsstring) (d name : jsstring) (r : response)
        (bytes : list N) (w : world) :
  let dir := absolute (segs ++ [d]) in
  Forall (fun x => Path.plain x = true) segs ->
  segs <> [] ->
  Path.plain d = true ->
  Path.plain name = true ->
  response_filename r w = (Ok (js "../" ++ name), w) ->
  body r = Ok bytes ->
  writeFileSync E (absolute (segs ++ [name])) = None ->
  rm_error E dir = None ->
  In dir (dirs w) ->
  exists a w1,
    materialize E dir (IsResponse r) w = (Ok a, w1)
    /\ filePath a = absolute (segs ++ [name])
    /\ filename a = name
    /\ ~ In dir (dirs (snd (cleanup a w1)))
    /\ In (filePath a, bytes) (files (snd (cleanup a w1))).
Proof.
  intros dir Hall Hne Hd Hn Hname Hbody Hwrite Hrm Hin.
  pose proof (join_parent_reference segs d name Hall Hd Hn) as Hjoin.
  pose proof (not_under_sibling segs d name Hne Hn) as Hout.
  fold dir in Hjoin, Hout.
  unfold materialize. unfold bind at 1. rewrite Hname.
  unfold bind at 1, lift at 1. rewrite Hbody.
  rewrite Hjoin.
  unfold bind, emit, modify, check, write_file, ret. rewrite Hwrite.
  eexists; eexists. split; [reflexivity|].
  cbn [filePath filename cleanup]. split; [reflexivity|].
  split.
  { unfold absolute. rewrite join_slash_last by exact Hne.
    change (c_slash :: Path.join_slash segs ++ c_slash :: name)
      with ((c_slash :: Path.join_slash segs) ++ [c_slash] ++ name).
    rewrite app_assoc. apply basename_suffix; [exact Hn|].
    right. eexists; reflexivity. }
  match goal with
  | |- context [rmSync E dir ?w0] =>
      assert (Hin0 : In dir (dirs w0)) by (destruct w; exact Hin);
      destruct (rmSync_leaves E dir w0 Hin0 Hrm) as [Hgone Hkept]
  end.
  split; [exact Hgone|]. rewrite Hkept, filter_In. split.
  - destruct w; left; reflexivity.
  - cbn [fst]. rewrite Hout. reflexivity.
Qed.

Lemma parent_reference_outlives_release_witness :
  exists a w1,
    materialize good tmp
      (IsResponse
         (Response (js "https://dl.example.com/get")
                   [(js "content-disposition",
                     js "attachment; filename=../x.pptx")]
                   (Ok [80; 75]%N)))
      (set_fs [tmp] [] (fresh NoFile)) = (Ok a, w1)
    /\ filePath a = js "/tmp/x.pptx"
    /\ In (filePath a, [80; 75]%N) (files (snd (cleanup a w1))).
Proof.
  destruct (parent_reference_outlives_release good [js "tmp"]
              (js "aippt-Ab12Cd") (js "x.pptx")
              (Response (js "https://dl.example.com/get")
                        [(js "content-disposition",
                          js "attachment; filename=../x.pptx")]
                        (Ok [80; 75]%N))
              [80; 75]%N (set_fs [tmp] [] (fresh NoFile)))
    as (a & w1 & Hm & Hp & _ & _ & Hf);
    try reflexivity; try discriminate.
  - repeat constructor.
  - left; reflexivity.
  - exists a, w1. split; [exact Hm|]. split; [exact Hp | exact Hf].
Defined.

End Releases.

(** ** Percent encoding and decoding *)

Module UriFacts.

Import Uri.
Local Open Scope N_scope.

(** Linear arithmetic with division and remainder by constants. *)
Ltac dlia := zify; Z.to_euclidean_division_equations; lia.

Lemma hexval_hexdigit (d : N) : d < 16 -> hexval (hexdigit d) = Some d.
Proof.
  intros Hd. unfold hexdigit, hexval.
  destruct (N.ltb_spec d 10).
  - replace ((48 <=? 48 + d) && (48 + d <=? 57)) with true
      by (symmetry; apply andb_true_iff; split; apply N.leb_le; lia).
    f_equal; lia.
  - replace ((48 <=? 55 + d) && (55 + d <=? 57)) with false
      by (symmetry; apply andb_false_iff; right; apply N.leb_gt; lia).
    replace ((65 <=? 55 + d) && (55 + d <=? 70)) with true
      by (symmetry; apply andb_true_iff; split; apply N.leb_le; lia).
    f_equal; lia.
Qed.

Lemma escapes_escape (b : N) (e : jsstring) :
  b < 256 -> escapes (escape b ++ e) = option_map (cons (Oct b)) (escapes e).
Proof.
  intros Hb. unfold escape. cbn [app escapes].
  change (c_percent =? c_percent) with true. cbv iota.
  rewrite !hexval_hexdigit by dlia.
  replace (16 * (b / 16) + b mod 16) with b by dlia.
  destruct (escapes e); reflexivity.
Qed.

Lemma escapes_escape_all (bs : list N) (e : jsstring) :
  Forall (fun b => b < 256) bs ->
  escapes (escape_all bs ++ e) = option_map (app (map Oct bs)) (escapes e).
Proof.
  induction 1 as [|b bs Hb _ IH]; cbn [escape_all flat_map map app].
  - destruct (escapes e); reflexivity.
  - rewrite <- app_assoc, escapes_escape by exact Hb.
    fold (escape_all bs). rewrite IH. destruct (escapes e); reflexivity.
Qed.

Lemma unreserved_not_percent (c : N) : unreserved c = true -> c <> c_percent.
Proof. intros H ->. discriminate. Qed.

Lemma escapes_literal (c : N) (e : jsstring) :
  c <> c_percent -> escapes (c :: e) = option_map (cons (Lit c)) (escapes e).
Proof.
  intros Hc. cbn [escapes]. apply N.eqb_neq in Hc. rewrite Hc. reflexivity.
Qed.

(** A Unicode scalar value: a code point that is not a surrogate. *)
Lemma utf8_octets (v : N) :
  v < 1114112 -> Forall (fun b => b < 256) (utf8 v).
Proof.
  intros Hv. unfold utf8.
  destruct (N.ltb_spec v 128); [repeat constructor; lia|].
  destruct (N.ltb_spec v 2048); [repeat constructor; dlia|].
  destruct (N.ltb_spec v 65536); repeat constructor; dlia.
Qed.

Ltac settle_test :=
  match goal with
  | |- context [?a <? ?b] =>
      first [ replace (a <? b) with true
                by (symmetry; apply N.ltb_lt; dlia)
            | replace (a <? b) with false
                by (symmetry; apply N.ltb_ge; dlia) ]
  | |- context [?a <=? ?b] =>
      first [ replace (a <=? b) with true
                by (symmetry; apply N.leb_le; dlia)
            | replace (a <=? b) with false
                by (symmetry; apply N.leb_gt; dlia) ]
  end.

Lemma utf16_unit (c : N) : c < 65536 -> utf16 c = [c].
Proof.
  intros Hc. unfold utf16. apply N.ltb_lt in Hc. rewrite Hc. reflexivity.
Qed.

Lemma octets_utf8 (v : N) (ts : list token) :
  v < 1114112 -> ~ (55296 <= v <= 57343) ->
  octets (map Oct (utf8 v) ++ ts) = option_map (app (utf16 v)) (octets ts).
Proof.
  intros Hv Hs. unfold utf8.
  destruct (N.ltb_spec v 128) as [H1|H1].
  { cbn [map app octets]. repeat settle_test. cbv iota.
    rewrite utf16_unit by lia. destruct (octets ts); reflexivity. }
  destruct (N.ltb_spec v 2048) as [H2|H2].
  { cbn [map app octets]. unfold in_range. repeat settle_test.
    cbn [andb]. cbv iota.
    replace ((192 + v / 64 - 192) * 64 + (128 + v mod 64 - 128)) with v
      by dlia.
    reflexivity. }
  destruct (N.ltb_spec v 65536) as [H3|H3].
  { cbn [map app octets]. unfold in_range.
    destruct (N.eqb_spec (224 + v / 4096) 224) as [E1|E1];
      destruct (N.eqb_spec (224 + v / 4096) 237) as [E2|E2];
      try (exfalso; lia);
      repeat settle_test; cbn [andb]; cbv iota;
      replace ((224 + v / 4096 - 224) * 4096
               + (128 + (v / 64) mod 64 - 128) * 64
               + (128 + v mod 64 - 128)) with v by dlia;
      reflexivity. }
  cbn [map app octets]. unfold in_range.
  destruct (N.eqb_spec (240 + v / 262144) 240) as [E1|E1];
    destruct (N.eqb_spec (240 + v / 262144) 244) as [E2|E2];
    try (exfalso; lia);
    repeat settle_test; cbn [andb]; cbv iota;
    replace ((240 + v / 262144 - 240) * 262144
             + (128 + (v / 4096) mod 64 - 128) * 4096
             + (128 + (v / 64) mod 64 - 128) * 64
             + (128 + v mod 64 - 128)) with v by dlia;
    reflexivity.
Qed.

Lemma decode_literal (c : N) (e : jsstring) :
  c <> c_percent ->
  decodeURIComponent (c :: e) = option_map (cons c) (decodeURIComponent e).
Proof.
  intros Hc. unfold decodeURIComponent. rewrite escapes_literal by exact Hc.
  destruct (escapes e); reflexivity.
Qed.

Lemma decode_escaped (v : N) (e : jsstring) :
  v < 1114112 -> ~ (55296 <= v <= 57343) ->
  decodeURIComponent (escape_all (utf8 v) ++ e)
  = option_map (app (utf16 v)) (decodeURIComponent e).
Proof.
  intros Hv Hs. unfold decodeURIComponent.
  rewrite escapes_escape_all by (apply utf8_octets; exact Hv).
  destruct (escapes e) as [ts|]; [|reflexivity].
  cbn [option_map]. apply octets_utf8; assumption.
Qed.

Lemma utf16_pair (lead trail : N) :
  in_range 55296 56319 lead = true ->
  in_range 56320 57343 trail = true ->
  utf16 (pair_value lead trail) = [lead; trail]
  /\ pair_value lead trail < 1114112
  /\ ~ (55296 <= pair_value lead trail <= 57343).
Proof.
  unfold in_range, pair_value. rewrite !andb_true_iff, !N.leb_le.
  intros [L1 L2] [T1 T2]. unfold utf16.
  replace (65536 + (lead - 55296) * 1024 + (trail - 56320) <? 65536)
    with false by (symmetry; apply N.ltb_ge; lia).
  split; [|split; lia]. f_equal; [dlia|]. f_equal. dlia.
Qed.

(** Decoding undoes encoding. *)
Lemma decode_encode (n : nat) :
  forall s e : jsstring,
    (List.length s <= n)%nat -> code_units s ->
    encodeURIComponent s = Some e -> decodeURIComponent e = Some s.
Proof.
  induction n as [|n IH]; intros s e Hlen Hunits Henc.
  { destruct s; [|simpl in Hlen; lia]. injection Henc as <-. reflexivity. }
  destruct s as [|c r]; [injection Henc as <-; reflexivity|].
  inversion Hunits as [|? ? Hc Hr]; subst.
  cbn [encodeURIComponent] in Henc. simpl in Hlen.
  destruct (unreserved c) eqn:Hu.
  { destruct (encodeURIComponent r) as [e'|] eqn:Er; [|discriminate].
    injection Henc as <-.
    rewrite decode_literal by (apply unreserved_not_percent; exact Hu).
    rewrite (IH r e'); auto. lia. }
  destruct (in_range 56320 57343 c) eqn:Htrail; [discriminate|].
  destruct (in_range 55296 56319 c) eqn:Hlead.
  - destruct r as [|trail r']; [discriminate|].
    destruct (in_range 56320 57343 trail) eqn:Ht; [|discriminate].
    destruct (encodeURIComponent r') as [e'|] eqn:Er; [|discriminate].
    injection Henc as <-.
    destruct (utf16_pair c trail Hlead Ht) as [Hpair [Hmax Hsur]].
    rewrite decode_escaped by assumption.
    inversion Hr; subst.
    rewrite (IH r' e'); auto; [|simpl in Hlen; lia].
    cbn [option_map]. rewrite Hpair. reflexivity.
  - destruct (encodeURIComponent r) as [e'|] eqn:Er; [|discriminate].
    injection Henc as <-.
    unfold in_range in Htrail, Hlead.
    rewrite andb_false_iff, !N.leb_gt in Htrail, Hlead.
    rewrite decode_escaped by lia.
    rewrite (IH r e'); auto; [|lia].
    cbn [option_map]. rewrite utf16_unit by exact Hc. reflexivity.
Qed.

Lemma decoding_by_encoding (s e : jsstring) :
  code_units s -> encodeURIComponent s = Some e ->
  decodeURIComponent e = Some s.
Proof. intros Hu He. exact (decode_encode (List.length s) s e (Nat.le_refl _) Hu He). Qed.

(** X13.  Percent decoding undoes percent encoding: whenever
    [encodeURIComponent] accepts a string of code units, that is whenever
    it holds no unpaired surrogate, [decodeURIComponent] gives the string
    back from the result. *)
Theorem decoding_undoes_encoding (s e : jsstring) :
  code_units s ->
  encodeURIComponent s = Some e ->
  decodeURIComponent e = Some s.
Proof.
  intros Hunits Henc.
  apply (decode_encode (List.length s) s e);
    [apply Nat.le_refl | exact Hunits|].
  exact Henc.
Qed.

Lemma decoding_undoes_encoding_witness :
  decodeURIComponent (js "%E4%B8%AD%20a.pptx") = Some [20013; 32; 97; 46; 112; 112; 116; 120].
Proof.
  apply (decoding_undoes_encoding [20013; 32; 97; 46; 112; 112; 116; 120]).
  - repeat constructor.
  - reflexivity.
Defined.

End UriFacts.

(** ** The header the routes send, read by the downloader *)

Module Headers.

Import World Downloader Uri UriFacts StringFacts PathFacts Fixtures.
Local Open Scope N_scope.

(** A code unit [encodeURIComponent] can produce. *)
Lemma encoded_units (s e : jsstring) :
  code_units s ->
  encodeURIComponent s = Some e ->
  Forall (fun c => unreserved c = true \/ c = c_percent) e.
Proof.
  assert (Hhex : forall d, d < 16 -> unreserved (hexdigit d) = true).
  { intros d Hd. unfold hexdigit, unreserved, in_range.
    destruct (N.ltb_spec d 10).
    - replace ((48 <=? 48 + d) && (48 + d <=? 57)) with true
        by (symmetry; apply andb_true_iff; split; apply N.leb_le; lia).
      rewrite !orb_true_r. reflexivity.
    - replace ((65 <=? 55 + d) && (55 + d <=? 90)) with true
        by (symmetry; apply andb_true_iff; split; apply N.leb_le; lia).
      reflexivity. }
  assert (Hesc : forall bs,
             Forall (fun b => b < 256) bs ->
             Forall (fun c => unreserved c = true \/ c = c_percent)
                    (escape_all bs)).
  { induction 1 as [|b bs Hb _ IH]; [constructor|].
    cbn [escape_all flat_map]. unfold escape. cbn [app].
    constructor; [right; reflexivity|].
    constructor; [left; apply Hhex; dlia|].
    constructor; [left; apply Hhex; dlia|].
    exact IH. }
  assert (Hlen : forall n (s e : jsstring),
             (List.length s <= n)%nat -> code_units s ->
             encodeURIComponent s = Some e ->
             Forall (fun c => unreserved c = true \/ c = c_percent) e).
  { induction n as [|n IH]; intros s0 e0 Hl Hunits Henc.
    - destruct s0; [|simpl in Hl; lia]. injection Henc as <-. constructor.
    - destruct s0 as [|c r]; [injection Henc as <-; constructor|].
      inversion Hunits as [|? ? Hc Hr]; subst.
      cbn [encodeURIComponent] in Henc. simpl in Hl.
      destruct (unreserved c) eqn:Hu.
      { destruct (encodeURIComponent r) as [e'|] eqn:Er; [|discriminate].
        injection Henc as <-. constructor; [left; exact Hu|].
        apply (IH r e'); [lia | exact Hr | exact Er]. }
      destruct (in_range 56320 57343 c); [discriminate|].
      destruct (in_range 55296 56319 c) eqn:Hlead.
      + destruct r as [|trail r']; [discriminate|].
        destruct (in_range 56320 57343 trail) eqn:Htrail; [|discriminate].
        destruct (encodeURIComponent r') as [e'|] eqn:Er; [|discriminate].
        injection Henc as <-.
        destruct (utf16_pair c trail Hlead Htrail) as (_ & Hv & _).
        apply Forall_app; split; [apply Hesc, utf8_octets, Hv|].
        inversion Hr; subst.
        apply (IH r' e'); [simpl in Hl; lia | assumption | exact Er].
      + destruct (encodeURIComponent r) as [e'|] eqn:Er; [|discriminate].
        injection Henc as <-.
        apply Forall_app; split; [apply Hesc, utf8_octets; lia|].
        apply (IH r e'); [lia | exact Hr | exact Er]. }
  intros Hunits Henc.
  apply (Hlen (List.length s) s e); [apply Nat.le_refl | exact Hunits|].
  exact Henc.
Qed.

Lemma encoded_not_empty (s e : jsstring) :
  s <> [] -> encodeURIComponent s = Some e -> e <> [].
Proof.
  intros Hs Henc ->. destruct s as [|c r]; [contradiction|].
  cbn [encodeURIComponent] in Henc.
  assert (Hesc : forall v rest, escape_all (utf8 v) ++ rest <> []).
  { intros v rest. unfold utf8.
    destruct (v <? 128); [discriminate|].
    destruct (v <? 2048); [discriminate|].
    destruct (v <? 65536); discriminate. }
  destruct (unreserved c).
  { destruct (encodeURIComponent r); discriminate. }
  destruct (in_range 56320 57343 c); [discriminate|].
  destruct (in_range 55296 56319 c).
  - destruct r as [|trail r']; [discriminate|].
    destruct (in_range 56320 57343 trail); [|discriminate].
    destruct (encodeURIComponent r') as [e'|]; [|discriminate].
    injection Henc as Henc. exact (Hesc _ _ Henc).
  - destruct (encodeURIComponent r) as [e'|]; [|discriminate].
    injection Henc as Henc. exact (Hesc _ _ Henc).
Qed.

(** Such a code unit is neither white space, nor a quote, nor a
    semicolon. *)
Lemma encoded_unit_is_inert (c : N) :
  unreserved c = true \/ c = c_percent ->
  is_space c = false
  /\ negb (c =? c_dquote) && negb (c =? c_semi) = true.
Proof.
  intros H.
  assert (Hc : c = 37 \/ c = 33 \/ (39 <= c <= 42) \/ (45 <= c <= 46)
               \/ (48 <= c <= 57) \/ (65 <= c <= 90) \/ c = 95
               \/ (97 <= c <= 122) \/ c = 126).
  { destruct H as [H | ->]; [|left; reflexivity].
    unfold unreserved, in_range in H. cbn [existsb] in H.
    rewrite !orb_true_iff, !andb_true_iff, !N.leb_le, !N.eqb_eq in H.
    lia. }
  split.
  - unfold is_space.
    rewrite !orb_false_iff, andb_false_iff, !N.eqb_neq, !N.leb_gt. lia.
  - rewrite andb_true_iff, !negb_true_iff, !N.eqb_neq.
    unfold c_dquote, c_semi. lia.
Qed.

Lemma trim_start_inert (e : jsstring) :
  Forall (fun c => is_space c = false) e -> trim_start e = e.
Proof.
  intros H. destruct H as [|c e Hc _]; [reflexivity|].
  cbn [trim_start]. rewrite Hc. reflexivity.
Qed.

Lemma trim_inert (e : jsstring) :
  Forall (fun c => is_space c = false) e -> trim e = e.
Proof.
  intros H. unfold trim. rewrite (trim_start_inert e H).
  rewrite trim_start_inert; [apply rev_involutive|].
  apply Forall_rev; exact H.
Qed.

Lemma exec_skip (c : N) (t : jsstring) :
  ci_eqb 102 c = false ->
  Regex.re_filename_exec (c :: t) = Regex.re_filename_exec t.
Proof.
  intros H.
  assert (Hat : Regex.filename_at (c :: t) = None).
  { unfold Regex.filename_at, Regex.filename_star_at,
      Regex.filename_plain_at.
    change (js "filename*=UTF-8''") with (102 :: js "ilename*=UTF-8''").
    change (js "filename=") with (102 :: js "ilename=").
    cbn [strip_prefix_ci]. rewrite H. reflexivity. }
  cbn [Regex.re_filename_exec]. rewrite Hat. reflexivity.
Qed.

Lemma exec_here (s : jsstring) (m : Regex.filename_match) :
  Regex.filename_at s = Some m -> Regex.re_filename_exec s = Some m.
Proof. intros H. destruct s; cbn [Regex.re_filename_exec]; rewrite H; reflexivity. Qed.

(** The file-name pattern on the header the routes build. *)
Lemma exec_on_route_header (e : jsstring) :
  e <> [] ->
  Forall (fun c => negb (c =? c_dquote) && negb (c =? c_semi) = true) e ->
  Regex.re_filename_exec
    (js "attachment; filename=" ++ [c_dquote] ++ e ++ [c_dquote])
  = Some (Regex.FilenameMatch None (Some e)).
Proof.
  intros Hne Hall.
  assert (Hstar : forall t,
             strip_prefix_ci (js "filename*=UTF-8''") (js "filename=" ++ t)
             = None) by (intros; reflexivity).
  assert (Hplain : forall t,
             strip_prefix_ci (js "filename=") (js "filename=" ++ t)
             = Some t) by (intros; reflexivity).
  change (js "attachment; filename=" ++ [c_dquote] ++ e ++ [c_dquote])
    with (97 :: 116 :: 116 :: 97 :: 99 :: 104 :: 109 :: 101 :: 110 :: 116
             :: 59 :: 32
             :: (js "filename=" ++ [c_dquote] ++ e ++ [c_dquote])).
  do 12 (rewrite exec_skip by reflexivity).
  apply exec_here.
  unfold Regex.filename_at, Regex.filename_star_at, Regex.filename_plain_at.
  rewrite Hstar, Hplain. cbn [app].
  change (c_dquote =? c_dquote) with true. cbv beta iota zeta.
  unfold Regex.plus. rewrite (span_all _ e [c_dquote]).
  - destruct e; [contradiction | reflexivity].
  - apply forallb_forall. rewrite Forall_forall in Hall. exact Hall.
  - right. exists c_dquote, []. split; reflexivity.
Qed.

(** X14.  The content-disposition header the download routes send for a
    file name, [attachment; filename=QUOTE encodeURIComponent(name) QUOTE],
    is read back by the downloader's own file-name derivation as exactly
    that name, for every non-empty name without an unpaired surrogate. *)
Theorem route_header_round_trip (name encoded u : jsstring)
        (b : result (list N)) (w : world) :
  code_units name ->
  name <> [] ->
  encodeURIComponent name = Some encoded ->
  response_filename
    (Response u
       [(js "content-disposition",
         js "attachment; filename=" ++ [c_dquote] ++ encoded ++ [c_dquote])]
       b) w
  = (Ok name, w).
Proof.
  intros Hunits Hne Henc.
  pose proof (encoded_units name encoded Hunits Henc) as Hsafe.
  pose proof (encoded_not_empty name encoded Hne Henc) as Hne'.
  assert (Hinert : Forall (fun c => is_space c = false) encoded
                   /\ Forall (fun c => negb (c =? c_dquote)
                                       && negb (c =? c_semi) = true) encoded).
  { split; eapply Forall_impl; try exact Hsafe;
      intros c Hc; apply (encoded_unit_is_inert c Hc). }
  destruct Hinert as [Hspace Hquote].
  assert (Hdisp : forall hdr : jsstring,
             disposition
               (Response u
                  [(js "content-disposition",
                    js "attachment; filename=" ++ hdr)] b)
             = Some (js "attachment; filename=" ++ hdr))
    by (intros; reflexivity).
  assert (Hgroup : or_undef None (Some encoded) = Some encoded)
    by reflexivity.
  unfold response_filename. rewrite Hdisp.
  rewrite (exec_on_route_header encoded Hne' Hquote).
  cbn [Regex.group1 Regex.group2]. rewrite Hgroup.
  rewrite (trim_inert encoded Hspace).
  rewrite (decoding_by_encoding name encoded Hunits Henc).
  reflexivity.
Qed.

Lemma route_header_round_trip_witness :
  response_filename
    (Response (js "https://dl.example.com/get")
       [(js "content-disposition",
         js "attachment; filename=" ++ [c_dquote]
            ++ js "%E4%B8%AD%20a.pptx" ++ [c_dquote])]
       (Ok []))
    (fresh NoFile)
  = (Ok [20013; 32; 97; 46; 112; 112; 116; 120], fresh NoFile).
Proof.
  apply (route_header_round_trip [20013; 32; 97; 46; 112; 112; 116; 120]).
  - repeat constructor.
  - discriminate.
  - reflexivity.
Defined.

End Headers.

(** ** The serving route *)

Module Serving.

Import JS World Downloader Uri Server.

Lemma db_read_file (d d1 : database) : db_read d = Ok d1 -> file d1 = file d.
Proof.
  unfold db_read. destruct (file d) eqn:Ef; intros Hr;
    inversion Hr; subst; simpl; congruence.
Qed.

(** Reading again what was just read changes nothing. *)
Lemma db_read_again (d d1 : database) : db_read d = Ok d1 -> db_read d1 = Ok d1.
Proof.
  destruct d as [c f]. unfold db_read. cbn [file data].
  destruct f; intros Hr; inversion Hr; subst; reflexivity.
Qed.

Lemma accepted_request (H : host) (q : query) (d d1 : database)
      (url : jsstring) (row : token_row) :
  check_request H q d = (Accepted url row, d1) ->
  exists token,
    given (q_token q) = Some token /\ given (q_url q) = Some url
    /\ db_read d = Ok d1
    /\ find_token token (tokens (data d1)) = Some row
    /\ isTokenValid H (Some row) = Valid.
Proof.
  unfold check_request. intros Ha.
  destruct (given (q_token q)) as [token|]; [|discriminate].
  destruct (given (q_url q)) as [u|]; [|discriminate].
  destruct (db_read d) as [d0|e]; [|discriminate].
  destruct (find_token token (tokens (data d0))) as [r|] eqn:Ef;
    [|simpl in Ha; discriminate].
  destruct (isTokenValid H (Some r)) eqn:Ev; try discriminate.
  inversion Ha; subst. exists token. repeat split; assumption.
Qed.

Lemma refused_request (H : host) (q : query) (d d1 : database)
      (r : result reply) :
  check_request H q d = (Refused r, d1) -> file d1 = file d.
Proof.
  unfold check_request. intros Ha.
  destruct (given (q_token q)) as [token|];
    [|inversion Ha; reflexivity].
  destruct (given (q_url q)) as [u|]; [|inversion Ha; reflexivity].
  destruct (db_read d) as [d0|e] eqn:Er; [|inversion Ha; reflexivity].
  assert (d1 = d0) as ->.
  { destruct (find_token token (tokens (data d0))) as [r0|];
      destruct (isTokenValid H _); inversion Ha; reflexivity. }
  exact (db_read_file d d0 Er).
Qed.

Lemma find_token_in (token : jsstring) (rows : list token_row)
      (row : token_row) :
  find_token token rows = Some row -> In row rows.
Proof. intros Hf. exact (proj1 (find_some _ _ Hf)). Qed.

Lemma findIndex_in (rows : list token_row) (row : token_row) :
  In row rows -> exists idx, findIndex (row_id row) rows = Some idx.
Proof.
  induction rows as [|t rest IH]; [intros []|].
  intros [-> | Hin]; cbn [findIndex].
  - rewrite Z.eqb_refl. exists O. reflexivity.
  - destruct (row_id t =? row_id row)%Z; [exists O; reflexivity|].
    destruct (IH Hin) as [idx ->]. exists (S idx). reflexivity.
Qed.

Lemma increment_at_ids (rows : list token_row) :
  forall idx, map row_id (increment_at idx rows) = map row_id rows.
Proof.
  induction rows as [|t rest IH]; intros [|i]; cbn [increment_at map];
    try reflexivity.
  rewrite IH. reflexivity.
Qed.

(** With distinct ids, the row [findIndex] reaches through the id of a row
    of the list is that row: it alone is changed. *)
Lemma increment_found (rows : list token_row) (row : token_row) :
  NoDup (map row_id rows) -> In row rows ->
  forall idx, findIndex (row_id row) rows = Some idx ->
  exists before after,
    rows = before ++ row :: after
    /\ increment_at idx rows = before ++ used_once_more row :: after.
Proof.
  induction rows as [|t rest IH]; [intros _ []|].
  cbn [map]. intros Hnd Hin idx Hfi. inversion Hnd as [|? ? Hnotin Hrest]; subst.
  cbn [findIndex] in Hfi.
  destruct (Z.eqb_spec (row_id t) (row_id row)) as [Heq | Hne].
  - injection Hfi as <-.
    assert (t = row) as ->.
    { destruct Hin as [Ht | Hin]; [exact Ht|].
      exfalso. apply Hnotin. rewrite Heq. apply in_map. exact Hin. }
    exists [], rest. split; reflexivity.
  - destruct Hin as [-> | Hin]; [contradiction Hne; reflexivity|].
    destruct (findIndex (row_id row) rest) as [i|] eqn:Ei; [|discriminate].
    injection Hfi as <-.
    destruct (IH Hrest Hin i eq_refl) as (before & after & -> & Hinc).
    exists (t :: before), after. cbn [increment_at app].
    rewrite Hinc. split; reflexivity.
Qed.

Lemma valid_has_a_use_left (H : host) (row : token_row) :
  isTokenValid H (Some row) = Valid -> whole_limit row ->
  within_limit (used_once_more row).
Proof.
  unfold isTokenValid, whole_limit, within_limit. cbn [used_once_more
    max_downloads downloads_used].
  destruct (max_downloads row) as [m|]; [|intros; exact I].
  intros Hv [k Hk].
  destruct (match match expires_at row with
                  | Some s => if truthy s then Some (Date_parse H s) else None
                  | None => None
                  end with
            | Some (Some t) => (t <? today_start H)%Z
            | _ => false
            end); [discriminate|].
  destruct (Qle_bool m (inject_Z (downloads_used row))) eqn:Eq;
    [discriminate|].
  assert (Hnot : ~ (m <= inject_Z (downloads_used row))%Q).
  { intros Hle. apply Qle_bool_iff in Hle. congruence. }
  rewrite Hk in Hnot |- *. rewrite <- Zle_Qle in Hnot |- *. lia.
Qed.

Lemma sound_increment (H : host) (c : db_data) (row : token_row) (idx : nat) :
  sound c -> In row (tokens c) -> isTokenValid H (Some row) = Valid ->
  findIndex (row_id row) (tokens c) = Some idx ->
  sound (DbData (increment_at idx (tokens c)) (db_seq c) (totalDownloads c)
                (totalBytes c)).
Proof.
  intros (Hnd & Hwhole & Hwithin) Hin Hv Hfi.
  destruct (increment_found (tokens c) row Hnd Hin idx Hfi)
    as (before & after & Hrows & Hinc).
  unfold sound. cbn [tokens]. split; [|split].
  - rewrite increment_at_ids. exact Hnd.
  - rewrite Hinc. rewrite Hrows in Hwhole.
    apply Forall_app in Hwhole as [Hb Ha].
    inversion Ha as [|? ? Hr Ha']; subst.
    apply Forall_app; split; [exact Hb|]. constructor; [exact Hr | exact Ha'].
  - rewrite Hinc. rewrite Hrows in Hwithin, Hwhole.
    apply Forall_app in Hwithin as [Hb Ha].
    apply Forall_app in Hwhole as [_ Hw].
    inversion Ha as [|? ? Hr Ha']; subst.
    inversion Hw as [|? ? Hwr _]; subst.
    apply Forall_app; split; [exact Hb|]. constructor; [|exact Ha'].
    exact (valid_has_a_use_left H row Hv Hwr).
Qed.

Lemma sound_settle (H : host) (row : token_row) (a : artifact)
      (d : database) :
  sound_store d -> In row (tokens (data d)) ->
  isTokenValid H (Some row) = Valid ->
  sound_store (snd (settle H row a d)).
Proof.
  intros [Hdata Hfile] Hin Hv. unfold settle.
  destruct (findIndex (row_id row) (tokens (data d))) as [idx|] eqn:Hfi;
    [|split; assumption].
  pose proof (sound_increment H (data d) row idx Hdata Hin Hv Hfi) as Hs.
  unfold db_write. destruct (write_error H); cbn [snd];
    split; cbn [data file set_tokens]; assumption.
Qed.

Lemma sound_read (d d1 : database) :
  sound_store d -> db_read d = Ok d1 -> sound_store d1.
Proof.
  intros [Hdata Hfile]. unfold db_read.
  destruct (file d) as [|e|c] eqn:Ef; intros Hr; inversion Hr; subst.
  - split; [exact Hdata | rewrite Ef; exact I].
  - split; cbn [data file]; exact Hfile.
Qed.

Lemma sound_decision (H : host) (q : query) (d d1 : database) (a : decision) :
  sound_store d -> check_request H q d = (a, d1) -> sound_store d1.
Proof.
  intros Hs. unfold check_request.
  destruct (given (q_token q)) as [token|];
    [|intros Ha; inversion Ha; subst; exact Hs].
  destruct (given (q_url q)) as [u|];
    [|intros Ha; inversion Ha; subst; exact Hs].
  destruct (db_read d) as [d0|e] eqn:Er;
    [|intros Ha; inversion Ha; subst; exact Hs].
  pose proof (sound_read d d0 Hs Er) as Hs0.
  destruct (find_token token (tokens (data d0)));
    destruct (isTokenValid H _); intros Ha; inversion Ha; subst; exact Hs0.
Qed.

Lemma sound_request (H : host) (E : env) (q : query) (d : database)
      (w : world) :
  sound_store d ->
  sound_store (snd (fst (get_aippt_download H E q d w))).
Proof.
  intros Hs. unfold get_aippt_download.
  destruct (check_request H q d) as [[r | url row] d1] eqn:Ha;
    pose proof (sound_decision H q d d1 _ Hs Ha) as Hs1; [exact Hs1|].
  destruct (accepted_request H q d d1 url row Ha)
    as (token & _ & _ & _ & Hfind & Hv).
  destruct (downloadAipptTemplate E url (Options (Some true) None) w)
    as [[a | e] w1]; [|exact Hs1].
  pose proof (sound_settle H row a d1 Hs1 (find_token_in _ _ _ Hfind) Hv)
    as Hs2.
  destruct (settle H row a d1) as [r d2]. exact Hs2.
Qed.

(** X15.  A request changes the world (browser, contexts, directories,
    files, log) or the stored file only when both parameters were given and
    the token named a row that [isTokenValid] accepted in what [db.read()]
    returned: a request that is refused starts no automation and counts
    nothing. *)
Theorem untouched_unless_accepted (H : host) (E : env) (q : query)
        (d d' : database) (w w' : world) (r : result reply) :
  get_aippt_download H E q d w = (r, d', w') ->
  w' <> w \/ file d' <> file d ->
  exists token url row d1,
    given (q_token q) = Some token /\ given (q_url q) = Some url
    /\ db_read d = Ok d1
    /\ find_token token (tokens (data d1)) = Some row
    /\ isTokenValid H (Some row) = Valid.
Proof.
  unfold get_aippt_download. intros Hrun Hchanged.
  destruct (check_request H q d) as [[r0 | url row] d1] eqn:Ha.
  - exfalso. inversion Hrun; subst.
    destruct Hchanged as [Hw | Hf]; [apply Hw; reflexivity|].
    apply Hf. exact (refused_request H q d d' r Ha).
  - destruct (accepted_request H q d d1 url row Ha)
      as (token & Ht & Hu & Hr & Hfind & Hv).
    exists token, url, row, d1. repeat split; assumption.
Qed.

Lemma untouched_unless_accepted_witness :
  exists token url row d1,
    given (q_token request) = Some token
    /\ given (q_url request) = Some url
    /\ db_read store = Ok d1
    /\ find_token token (tokens (data d1)) = Some row
    /\ isTokenValid host_ok (Some row) = Valid.
Proof.
  destruct (get_aippt_download host_ok Fixtures.good request store
              (Fixtures.fresh NoFile)) as [[r d'] w'] eqn:Hrun.
  apply (untouched_unless_accepted host_ok Fixtures.good request store d'
           (Fixtures.fresh NoFile) w' r Hrun).
  right. vm_compute in Hrun. inversion Hrun; subst. discriminate.
Defined.

(** X16.  The stored file changes only when the downloader returned an
    artifact and the write succeeded, and it then holds [db.data]: a
    download that fails is answered without being counted. *)
Theorem store_changes_only_after_a_download (H : host) (E : env) (q : query)
        (d d' : database) (w w' : world) (r : result reply) :
  get_aippt_download H E q d w = (r, d', w') ->
  file d' <> file d ->
  exists url a,
    given (q_url q) = Some url
    /\ downloadAipptTemplate E url (Options (Some true) None) w = (Ok a, w')
    /\ write_error H = None
    /\ r = Ok (pipe_file a)
    /\ file d' = Content (data d').
Proof.
  unfold get_aippt_download. intros Hrun Hchanged.
  destruct (check_request H q d) as [[r0 | url row] d1] eqn:Ha.
  - exfalso. inversion Hrun; subst. apply Hchanged.
    exact (refused_request H q d d' r Ha).
  - destruct (accepted_request H q d d1 url row Ha)
      as (token & _ & Hu & Hr & _ & _).
    pose proof (db_read_file d d1 Hr) as Hfile.
    destruct (downloadAipptTemplate E url (Options (Some true) None) w)
      as [[a | e] w1] eqn:Hdl.
    + unfold settle, db_write in Hrun.
      destruct (findIndex (row_id row) (tokens (data d1))) as [idx|].
      * destruct (write_error H) as [e|] eqn:Ew.
        { exfalso. inversion Hrun; subst. apply Hchanged. exact Hfile. }
        inversion Hrun; subst. exists url, a.
        repeat split; first [assumption | reflexivity].
      * exfalso. inversion Hrun; subst. apply Hchanged. exact Hfile.
    + exfalso. inversion Hrun; subst. apply Hchanged. exact Hfile.
Qed.

Lemma store_changes_only_after_a_download_witness :
  exists url a,
    given (q_url request) = Some url
    /\ downloadAipptTemplate Fixtures.good url (Options (Some true) None)
         (Fixtures.fresh NoFile)
       = (Ok a,
          snd (get_aippt_download host_ok Fixtures.good request store
                 (Fixtures.fresh NoFile)))
    /\ write_error host_ok = None
    /\ fst (fst (get_aippt_download host_ok Fixtures.good request store
                   (Fixtures.fresh NoFile)))
       = Ok (pipe_file a)
    /\ file (snd (fst (get_aippt_download host_ok Fixtures.good request
                         store (Fixtures.fresh NoFile))))
       = Content
           (data (snd (fst (get_aippt_download host_ok Fixtures.good request
                              store (Fixtures.fresh NoFile))))).
Proof.
  destruct (get_aippt_download host_ok Fixtures.good request store
              (Fixtures.fresh NoFile)) as [[r d'] w'] eqn:Hrun.
  cbn [fst snd].
  apply (store_changes_only_after_a_download host_ok Fixtures.good request
           store d' (Fixtures.fresh NoFile) w' r Hrun).
  vm_compute in Hrun. inversion Hrun; subst. discriminate.
Defined.

(** X17.  When the ids of the rows are distinct and the count of the row
    is below 2^53, where the sum of the code is exact, a request whose
    download and write succeed counts exactly one use, on the row its token
    named: that row's [downloads_used] grows by one, every other row is as
    it was, the rows keep their order, and the file holds the result. *)
Theorem served_download_counts_one_use (H : host) (E : env) (q : query)
        (d d1 : database) (w w1 : world) (url : jsstring) (row : token_row)
        (a : artifact) :
  check_request H q d = (Accepted url row, d1) ->
  NoDup (map row_id (tokens (data d1))) ->
  exact_count (downloads_used row) ->
  downloadAipptTemplate E url (Options (Some true) None) w = (Ok a, w1) ->
  write_error H = None ->
  exists before after d2,
    tokens (data d1) = before ++ row :: after
    /\ get_aippt_download H E q d w = (Ok (pipe_file a), d2, w1)
    /\ tokens (data d2) = before ++ used_once_more row :: after
    /\ file d2 = Content (data d2).
Proof.
  intros Ha Hnd _ Hdl Hw.
  destruct (accepted_request H q d d1 url row Ha)
    as (token & _ & _ & _ & Hfind & _).
  pose proof (find_token_in _ _ _ Hfind) as Hin.
  destruct (findIndex_in _ _ Hin) as [idx Hfi].
  destruct (increment_found _ row Hnd Hin idx Hfi)
    as (before & after & Hrows & Hinc).
  exists before, after.
  unfold get_aippt_download. rewrite Ha, Hdl.
  unfold settle, db_write. rewrite Hfi, Hw.
  eexists. split; [exact Hrows|]. split; [reflexivity|].
  cbn [data file set_tokens tokens]. split; [exact Hinc | reflexivity].
Qed.

Lemma served_download_counts_one_use_witness :
  exists before after d2,
    [link; unlimited] = before ++ link :: after
    /\ get_aippt_download host_ok Fixtures.good request store
         (Fixtures.fresh NoFile)
       = (Ok (pipe_file
                (match downloadAipptTemplate Fixtures.good Fixtures.template
                         (Options (Some true) None) (Fixtures.fresh NoFile)
                 with
                 | (Ok a, _) => a
                 | (Throw _, _) => Artifact [] [] (ret tt)
                 end)),
          d2,
          snd (downloadAipptTemplate Fixtures.good Fixtures.template
                 (Options (Some true) None) (Fixtures.fresh NoFile)))
    /\ tokens (data d2) = before ++ used_once_more link :: after
    /\ file d2 = Content (data d2).
Proof.
  destruct (downloadAipptTemplate Fixtures.good Fixtures.template
              (Options (Some true) None) (Fixtures.fresh NoFile))
    as [[a | e] w1] eqn:Hdl; [|vm_compute in Hdl; discriminate].
  cbn [snd].
  apply (served_download_counts_one_use host_ok Fixtures.good request store
           (Database (DbData [link; unlimited] 2 0 0)
                     (Content (DbData [link; unlimited] 2 0 0)))
           (Fixtures.fresh NoFile) w1 Fixtures.template link a).
  - reflexivity.
  - cbn. repeat constructor; cbn; intuition discriminate.
  - unfold exact_count. cbn. lia.
  - exact Hdl.
  - reflexivity.
Defined.

(** X18.  Served one after the other, requests never take a row beyond its
    limit: if the rows in memory and in the file have distinct ids, whole
    limits and [downloads_used] at most the limit, the same holds after any
    sequence of requests, whatever their hosts, environments and outcomes. *)
Theorem limit_is_kept_in_sequence (requests : list (host * env * query))
        (d : database) (w : world) :
  sound_store d -> sound_store (fst (serve_all requests d w)).
Proof.
  revert d w. induction requests as [|[[H E] q] rest IH]; intros d w Hs.
  - exact Hs.
  - cbn [serve_all].
    pose proof (sound_request H E q d w Hs) as Hs1.
    destruct (get_aippt_download H E q d w) as [[r d1] w1].
    apply IH. exact Hs1.
Qed.

Lemma limit_is_kept_in_sequence_witness :
  sound_store
    (fst (serve_all [(host_ok, Fixtures.good, request);
                     (host_ok, Fixtures.good, request)]
            store (Fixtures.fresh NoFile))).
Proof.
  apply (limit_is_kept_in_sequence
           [(host_ok, Fixtures.good, request);
            (host_ok, Fixtures.good, request)]
           store (Fixtures.fresh NoFile)).
  split; cbn [data file store tokens].
  - split; [constructor|split; constructor].
  - split; [|split].
    + cbn. repeat constructor; cbn; intuition discriminate.
    + repeat constructor. exists 1%Z. reflexivity.
    + repeat constructor. cbn. discriminate.
Defined.

(** X19.  The check and the count are separated by the download.  When a
    second request for a row with one use left is accepted before the first
    is counted, both are counted: the row ends one use beyond its limit.
    This is for counts below 2^53 - 1, where both sums of the code are
    exact. *)
Theorem overlapping_requests_pass_the_limit (H : host) (q : query)
        (d d1 : database) (url : jsstring) (row : token_row)
        (first second : artifact) :
  check_request H q d = (Accepted url row, d1) ->
  NoDup (map row_id (tokens (data d1))) ->
  write_error H = None ->
  exact_count (downloads_used row) ->
  exact_count (downloads_used row + 1) ->
  max_downloads row = Some (inject_Z (downloads_used row + 1)) ->
  exists before after d2 d3,
    check_request H q d1 = (Accepted url row, d1)
    /\ settle H row first d1 = (pipe_file first, d2)
    /\ settle H row second d2 = (pipe_file second, d3)
    /\ tokens (data d1) = before ++ row :: after
    /\ tokens (data d3)
       = before ++ used_once_more (used_once_more row) :: after
    /\ file d3 = Content (data d3)
    /\ ~ within_limit (used_once_more (used_once_more row)).
Proof.
  intros Ha Hnd Hw _ _ Hmax.
  destruct (accepted_request H q d d1 url row Ha)
    as (token & Ht & Hu & Hr & Hfind & Hv).
  pose proof (find_token_in _ _ _ Hfind) as Hin.
  destruct (findIndex_in _ _ Hin) as [idx Hfi].
  destruct (increment_found _ row Hnd Hin idx Hfi)
    as (before & after & Hrows & Hinc).
  set (rows2 := before ++ used_once_more row :: after).
  assert (Hnd2 : NoDup (map row_id rows2)).
  { unfold rows2. rewrite <- Hinc, increment_at_ids. exact Hnd. }
  assert (Hin2 : In (used_once_more row) rows2).
  { unfold rows2. apply in_or_app. right. left. reflexivity. }
  destruct (findIndex_in _ _ Hin2) as [idx2 Hfi2].
  destruct (increment_found _ _ Hnd2 Hin2 idx2 Hfi2)
    as (before2 & after2 & Hrows2 & Hinc2).
  assert (Hsame : before2 ++ used_once_more (used_once_more row) :: after2
                  = before ++ used_once_more (used_once_more row) :: after).
  { clear Hinc2 Hfi2 idx2.
    unfold rows2 in Hrows2, Hnd2.
    assert (Hgen : forall (x y : token_row) b1 a1 b2 a2,
               NoDup (map row_id (b1 ++ x :: a1)) ->
               b1 ++ x :: a1 = b2 ++ x :: a2 ->
               b2 ++ y :: a2 = b1 ++ y :: a1).
    { intros x y b1. induction b1 as [|h b1 IHb]; intros a1 b2 a2 Hn Heq.
      - destruct b2 as [|h2 b2]; cbn [app] in *.
        + injection Heq as ->. reflexivity.
        + injection Heq as <- ->. exfalso.
          cbn [map] in Hn. inversion Hn as [|? ? Hnotin _]; subst.
          apply Hnotin. rewrite map_app. apply in_or_app. right.
          left. reflexivity.
      - destruct b2 as [|h2 b2]; cbn [app] in *.
        + injection Heq as -> <-. exfalso.
          cbn [map] in Hn. inversion Hn as [|? ? Hnotin _]; subst.
          apply Hnotin. rewrite map_app. apply in_or_app. right.
          left. reflexivity.
        + injection Heq as <- Heq. cbn [map] in Hn.
          inversion Hn as [|? ? _ Hn']; subst.
          rewrite (IHb a1 b2 a2 Hn' Heq). reflexivity. }
    exact (Hgen _ _ _ _ _ _ Hnd2 Hrows2). }
  exists before, after.
  exists (Database (DbData rows2 (db_seq (data d1)) (totalDownloads (data d1))
                           (totalBytes (data d1)))
                   (Content (DbData rows2 (db_seq (data d1))
                                    (totalDownloads (data d1))
                                    (totalBytes (data d1))))).
  eexists.
  split; [|split; [|split; [|split; [|split; [|split]]]]].
  - unfold check_request. rewrite Ht, Hu, (db_read_again d d1 Hr), Hfind, Hv.
    reflexivity.
  - unfold settle, db_write. rewrite Hfi, Hw. unfold set_tokens.
    rewrite Hinc. reflexivity.
  - unfold settle, db_write. cbn [data tokens].
    change (row_id row) with (row_id (used_once_more row)).
    fold rows2. rewrite Hfi2, Hw. reflexivity.
  - exact Hrows.
  - cbn [data set_tokens tokens]. rewrite Hinc2. exact Hsame.
  - reflexivity.
  - unfold within_limit. cbn [used_once_more max_downloads downloads_used].
    rewrite Hmax. rewrite <- Zle_Qle. lia.
Qed.

Lemma overlapping_requests_pass_the_limit_witness :
  exists before after d2 d3,
    check_request host_ok request
          (Database (DbData [link; unlimited] 2 0 0)
                    (Content (DbData [link; unlimited] 2 0 0)))
    = (Accepted Fixtures.template link,
       Database (DbData [link; unlimited] 2 0 0)
                (Content (DbData [link; unlimited] 2 0 0)))
    /\ settle host_ok link (Artifact [] [] (ret tt))
              (Database (DbData [link; unlimited] 2 0 0)
                        (Content (DbData [link; unlimited] 2 0 0)))
       = (pipe_file (Artifact [] [] (ret tt)), d2)
    /\ settle host_ok link (Artifact [] [] (ret tt)) d2
       = (pipe_file (Artifact [] [] (ret tt)), d3)
    /\ [link; unlimited] = before ++ link :: after
    /\ tokens (data d3)
       = before ++ used_once_more (used_once_more link) :: after
    /\ file d3 = Content (data d3)
    /\ ~ within_limit (used_once_more (used_once_more link)).
Proof.
  apply (overlapping_requests_pass_the_limit host_ok request store
           (Database (DbData [link; unlimited] 2 0 0)
                     (Content (DbData [link; unlimited] 2 0 0)))
           Fixtures.template link).
  - reflexivity.
  - cbn. repeat constructor; cbn; intuition discriminate.
  - reflexivity.
  - unfold exact_count. cbn. lia.
  - unfold exact_count. cbn. lia.
  - reflexivity.
Defined.

End Serving.
